(** * Whisper JNI bridge (whisper_jni.cpp): model lifecycle, audio decoding
      and transcript assembly.

    The three JNI entry points and the helper [read_audio_file] are embedded
    as computations in a small state monad.  The state holds the file-level
    pointer [ctx], the whisper contexts that are currently allocated, and a
    trace of the log records and collaborator calls the code performs.
    whisper.h, dr_wav.h, the file system and the thread library are outside
    the translation unit; they enter as type classes. *)

From Stdlib Require Import ZArith List String Ascii Strings.Byte Lia QArith.
From Stdlib Require Import Floats.SpecFloat.
From stdpp Require Import base gmap strings list.

Open Scope Z_scope.

(* ================================================================== *)
(** ** 32-bit floats *)

(** [float] of the C++ code is IEEE 754 binary32: 24 bits of precision,
    exponents below 128. *)
Module F32.

Definition prec : Z := 24.
Definition emax : Z := 128.

Definition float32 : Type := spec_float.

(** [static_cast<float>(n)] for an integer [n], round to nearest even. *)
Definition of_int (n : Z) : float32 := binary_normalize prec emax n 0 false.

Definition div (x y : float32) : float32 := SFdiv prec emax x y.

Definition leb (x y : float32) : bool := SFleb x y.

Definition zero : float32 := S754_zero false.

(** The float literal [32768.0f]. *)
Definition lit_32768 : float32 := of_int 32768.

Definition valid (x : float32) : bool := valid_binary prec emax x.

(** The rational a finite float denotes; infinities and NaN denote none. *)
Definition to_Q (x : float32) : option Q :=
  match x with
  | S754_zero _ => Some 0%Q
  | S754_finite s m e => Some (inject_Z (cond_Zopp s (Zpos m)) * Qpower 2 e)%Q
  | S754_infinity _ => None
  | S754_nan => None
  end.

(** [x] is finite and its value lies in the closed interval [[lo, hi]]. *)
Definition in_rangeb (lo hi : Q) (x : float32) : bool :=
  match to_Q x with
  | Some q => Qle_bool lo q && Qle_bool q hi
  | None => false
  end.

(** [x] is finite and its value is exactly [q]. *)
Definition denotesb (x : float32) (q : Q) : bool :=
  match to_Q x with
  | Some q' => Qeq_bool q' q
  | None => false
  end.

End F32.

Abbreviation float32 := F32.float32.

(* ================================================================== *)
(** ** Raw 16-bit PCM *)

(** Value of an [int16_t] whose two bytes in memory are [lo] then [hi]:
    the Android ABIs are little-endian, and [int16_t] is two's complement. *)
Definition int16_of_bytes (lo hi : byte) : Z :=
  let u := Z.of_N (Byte.to_N lo) + 256 * Z.of_N (Byte.to_N hi) in
  if u <? 32768 then u else u - 65536.

Definition byte_at (bytes : list byte) (i : nat) : byte := nth i bytes x00.

(** [pcm16.resize(file_size / sizeof(int16_t)); file.read(pcm16.data(), file_size)]:
    the vector has [file_size / 2] elements, and element [i] occupies bytes
    [2i] and [2i+1] of the buffer the file is read into.  These are the
    elements when the read stays inside the vector; whether it does is
    [read_overrun]. *)
Definition read_pcm16 (bytes : list byte) : list Z :=
  let file_size := length bytes in
  map (fun i => int16_of_bytes (byte_at bytes (2 * i)) (byte_at bytes (2 * i + 1)))
      (seq 0 (file_size / 2)).

(** Number of bytes [file.read] stores past the last element of [pcm16]:
    the vector owns [2 * (file_size / 2)] bytes and the read stores
    [file_size].  For a file of one byte the vector is empty and the store
    goes through its null [data()]. *)
Definition read_overrun (bytes : list byte) : nat := (length bytes mod 2)%nat.

(** [static_cast<float>(pcm16[i]) / 32768.0f] *)
Definition pcm16_to_f32 (s : Z) : float32 := F32.div (F32.of_int s) F32.lit_32768.

(** The raw-PCM reading as the specification words it: the bytes taken two
    at a time as little-endian signed 16-bit samples (a last byte without a
    partner is no sample), each divided by 32768. *)
Fixpoint le16_samples (bytes : list byte) : list Z :=
  match bytes with
  | lo :: hi :: rest => int16_of_bytes lo hi :: le16_samples rest
  | _ => []
  end.

(** Bounded universal check over the integers [lo, lo + n). *)
Fixpoint all_from (P : Z -> bool) (lo : Z) (n : nat) : bool :=
  match n with
  | O => true
  | S k => P lo && all_from P (lo + 1) k
  end.

(** What is checked of the conversion of one sample: the quotient is a
    valid binary32 number, it is exactly [s / 32768], and it lies in
    [[-1, 32767/32768]]. *)
Definition pcm16_checkb (s : Z) : bool :=
  let x := pcm16_to_f32 s in
  F32.valid x && F32.denotesb x (s # 32768) && F32.in_rangeb (-1) (32767 # 32768) x.

(* ================================================================== *)
(** ** File-name extension *)

(** [strrchr(s, c)] for a character [c] other than NUL: the suffix of [s]
    that starts at the last occurrence of [c], [None] for a null result.
    (Paths come from [GetStringUTFChars], whose modified UTF-8 has no
    embedded NUL, so a Rocq string is the whole C string.) *)
Fixpoint strrchr (s : string) (c : ascii) : option string :=
  match s with
  | EmptyString => None
  | String a s' =>
      match strrchr s' c with
      | Some r => Some r
      | None => if Ascii.eqb a c then Some s else None
      end
  end.

(** [ext && strcmp(ext, ".wav") == 0] *)
Definition is_wav_path (filename : string) : bool :=
  match strrchr filename "."%char with
  | Some ext => String.eqb ext ".wav"
  | None => false
  end.

(* ================================================================== *)
(** ** Collaborators *)

Inductive whisper_sampling_strategy : Type :=
| WHISPER_SAMPLING_GREEDY
| WHISPER_SAMPLING_BEAM_SEARCH.

(** The fields of [whisper_full_params] the bridge sets or relies on. *)
Record whisper_full_params : Type := {
  strategy : whisper_sampling_strategy;
  n_threads : Z;
  translate : bool;
  print_progress : bool;
  print_realtime : bool;
  print_timestamps : bool;
  language : string;
}.

(** whisper.h.  A context is opaque; [whisper_init_from_file] yields none
    for a null result; [whisper_full] gives its return code and the context
    as the run leaves it. *)
Class WhisperLib : Type := {
  whisper_context : Type;
  whisper_init_from_file : string -> option whisper_context;
  whisper_full_default_params : whisper_sampling_strategy -> whisper_full_params;
  whisper_full :
    whisper_context -> whisper_full_params -> list float32 -> Z * whisper_context;
  whisper_full_n_segments : whisper_context -> Z;
  whisper_full_get_segment_text : whisper_context -> Z -> string;
}.

(** dr_wav.h.  [drwav_init_file] yields none when it returns false;
    [drwav_read_pcm_frames_f32 wav n] is the frames the reader delivers when
    asked for [n] of them. *)
Class DrWavLib : Type := {
  drwav : Type;
  drwav_init_file : string -> option drwav;
  channels : drwav -> Z;
  sampleRate : drwav -> Z;
  totalPCMFrameCount : drwav -> Z;
  drwav_read_pcm_frames_f32 : drwav -> Z -> list float32;
}.

(** A stream that is open.  For a regular file [tellg()] at the end is the
    number of its bytes and [read] delivers them all.  Other things open as
    well (a directory, a pipe) but have no size a vector can take: [tellg()]
    fails and gives -1, or gives a size no allocation satisfies. *)
Inductive ifstream : Type :=
| Regular (bytes : list byte)
| Unsized.

(** A stream on which the raw-PCM reading does not return: it has no size,
    or its size is odd. *)
Definition breaks_raw_reading (s : ifstream) : bool :=
  match s with
  | Unsized => true
  | Regular bytes => Nat.odd (length bytes)
  end.

(** The host.  [ifstream_open filename] is the stream when
    [std::ifstream(filename, std::ios::binary)] is open, and none when it is
    not.  [hardware_concurrency] is
    [(int)std::thread::hardware_concurrency()]. *)
Class Host : Type := {
  ifstream_open : string -> option ifstream;
  hardware_concurrency : Z;
}.

(* ================================================================== *)
(** ** Trace *)

(** One constructor per [LOGI]/[LOGE] call site, with its arguments. *)
Inductive log_record : Type :=
| Loading_model_from (path : string)
| Failed_to_initialize_whisper_context
| Model_loaded_successfully
| Whisper_context_not_initialized
| Transcribing_audio_from (path : string)
| Failed_to_read_audio_file (path : string)
| Successfully_loaded_audio (samples : nat)
| Audio_file_too_short (samples : nat)
| Starting_whisper_full (samples : nat)
| Failed_to_process_audio
| Transcription_complete (n_segments : Z)
| No_transcription_segments_found
| Segment (i : Z) (text : string)
| Whisper_context_freed
| Reading_WAV_file (channels sampleRate totalFrames : Z)
| WAV_file_must_be_mono (channels : Z)
| WAV_file_must_be_16kHz (sampleRate : Z)
| Successfully_read_from_WAV (samples : nat)
| First_10_samples (samples : list float32)
| Failed_to_open_WAV_file (path : string)
| Failed_to_open_file_as_raw_PCM (path : string)
| Reading_as_raw_PCM_file (size : nat)
| Read_from_raw_PCM_file (samples : nat)
| Unsupported_file_format (path : string).

Definition handle : Type := positive.

Inductive event : Type :=
| LOGI (r : log_record)
| LOGE (r : log_record)
| Call_whisper_free (h : handle)
| Call_whisper_init_from_file (path : string)
| Call_whisper_full (h : handle) (params : whisper_full_params) (samples : list float32)
| Call_drwav_init_file (path : string)
| Call_drwav_read_pcm_frames_f32 (frames : Z)
| Call_drwav_uninit
| Call_ifstream_open (path : string)
| Call_ifstream_read (bytes : nat).

(** Events by which the decoder touches the audio file. *)
Definition is_decode_event (e : event) : bool :=
  match e with
  | Call_drwav_init_file _ | Call_drwav_read_pcm_frames_f32 _ | Call_drwav_uninit
  | Call_ifstream_open _ | Call_ifstream_read _ => true
  | _ => false
  end.

(** Events of the raw-PCM fallback. *)
Definition is_raw_pcm_event (e : event) : bool :=
  match e with
  | Call_ifstream_open _ | Call_ifstream_read _ => true
  | _ => false
  end.

Definition is_inference_event (e : event) : bool :=
  match e with
  | Call_whisper_full _ _ _ => true
  | _ => false
  end.

(** What the raw-PCM fallback adds to the trace for a file it can open. *)
Definition raw_pcm_log (path : string) (bytes : list byte) : list event :=
  [ Call_drwav_init_file path;
    LOGE (Failed_to_open_WAV_file path);
    Call_ifstream_open path;
    LOGI (Reading_as_raw_PCM_file (length bytes));
    Call_ifstream_read (length bytes);
    LOGI (Read_from_raw_PCM_file (length bytes / 2)) ].

(** An event that is no call of inference. *)
Definition quiet (e : event) : Prop := is_inference_event e = false.

(* ================================================================== *)
(** ** State and the bridge monad *)

Section Bridge.
Context {whisper : WhisperLib} {dr_wav : DrWavLib} {host : Host}.

(** [ctx] is the file-level [static whisper_context* ctx], [None] for
    [nullptr].  [contexts] are the contexts [whisper_init_from_file] has
    returned and [whisper_free] has not yet released.  [trace] is oldest
    first. *)
Record State : Type := {
  ctx : option handle;
  contexts : gmap handle whisper_context;
  trace : list event;
}.

Definition initial_state : State :=
  {| ctx := None; contexts := ∅; trace := [] |}.

(** A computation either finishes with a value and a state or faults: it
    uses a context that is not allocated, stores outside a vector, or throws
    an exception, which nothing in the bridge catches. *)
Inductive outcome (A : Type) : Type :=
| Ok (a : A) (st : State)
| Fault.
Arguments Ok {A} a st.
Arguments Fault {A}.

Definition M (A : Type) : Type := State -> outcome A.

Definition ret {A} (a : A) : M A := fun st => Ok a st.

Definition fault {A} : M A := fun _ => Fault.

Definition bind {A B} (m : M A) (k : A -> M B) : M B :=
  fun st => match m st with
            | Ok a st' => k a st'
            | Fault => Fault
            end.

Notation "x <- m ;; k" := (bind m (fun x => k))
  (at level 100, m at next level, right associativity).
Notation "m ;;; k" := (bind m (fun _ => k))
  (at level 100, right associativity).

Definition emit (e : event) : M unit :=
  fun st => Ok tt {| ctx := ctx st; contexts := contexts st; trace := trace st ++ [e] |}.

(** [st] with [evs] added at the end of its trace. *)
Definition with_events (st : State) (evs : list event) : State :=
  {| ctx := ctx st; contexts := contexts st; trace := trace st ++ evs |}.

Definition get_ctx : M (option handle) := fun st => Ok (ctx st) st.

Definition set_ctx (c : option handle) : M unit :=
  fun st => Ok tt {| ctx := c; contexts := contexts st; trace := trace st |}.

(** Reading through a context pointer. *)
Definition deref (h : handle) : M whisper_context :=
  fun st => match contexts st !! h with
            | Some c => Ok c st
            | None => Fault
            end.

(** [whisper_free(h)] *)
Definition call_whisper_free (h : handle) : M unit :=
  emit (Call_whisper_free h) ;;;
  fun st => match contexts st !! h with
            | Some _ => Ok tt {| ctx := ctx st; contexts := delete h (contexts st);
                                 trace := trace st |}
            | None => Fault
            end.

(** [whisper_init_from_file(path)]: a context at an address not in use, or
    a null pointer. *)
Definition call_whisper_init_from_file (path : string) : M (option handle) :=
  emit (Call_whisper_init_from_file path) ;;;
  fun st => match whisper_init_from_file path with
            | Some c =>
                let h := fresh (dom (contexts st)) in
                Ok (Some h) {| ctx := ctx st; contexts := <[h := c]> (contexts st);
                               trace := trace st |}
            | None => Ok None st
            end.

(** [whisper_full(h, params, samples.data(), samples.size())] *)
Definition call_whisper_full (h : handle) (params : whisper_full_params)
    (samples : list float32) : M Z :=
  emit (Call_whisper_full h params samples) ;;;
  c <- deref h ;;
  let '(rc, c') := whisper_full c params samples in
  fun st => Ok rc {| ctx := ctx st; contexts := <[h := c']> (contexts st);
                     trace := trace st |}.

Definition logi (r : log_record) : M unit := emit (LOGI r).
Definition loge (r : log_record) : M unit := emit (LOGE r).

(* ------------------------------------------------------------------ *)
(** *** read_audio_file *)

(** [drwav_read_pcm_frames_f32(&wav, n, buf)] stores the delivered frames
    at the front of [buf]; the rest of [buf] keeps its contents. *)
Definition store_frames (delivered buf : list float32) : list float32 :=
  take (length buf) delivered ++ drop (length delivered) buf.

(** [for (size_t i = 0; i < pcm16.size(); i++) pcmf32[i] = float(pcm16[i]) / 32768.0f;]
    with [n] iterations to go from index [i]. *)
Fixpoint convert_loop (pcm16 : list Z) (n i : nat) (pcmf32 : list float32)
    : list float32 :=
  match n with
  | O => pcmf32
  | S k => convert_loop pcm16 k (S i) (<[i := pcm16_to_f32 (nth i pcm16 0)]> pcmf32)
  end.

(** [bool read_audio_file(const char* filename, std::vector<float>& pcmf32)]:
    the result and the vector as the call leaves it. *)
Definition read_audio_file (filename : string) (pcmf32 : list float32)
    : M (bool * list float32) :=
  if is_wav_path filename then
    emit (Call_drwav_init_file filename) ;;;
    match drwav_init_file filename with
    | Some wav =>
        logi (Reading_WAV_file (channels wav) (sampleRate wav) (totalPCMFrameCount wav)) ;;;
        if negb (channels wav =? 1) then
          loge (WAV_file_must_be_mono (channels wav)) ;;;
          emit Call_drwav_uninit ;;;
          ret (false, pcmf32)
        else if negb (sampleRate wav =? 16000) then
          loge (WAV_file_must_be_16kHz (sampleRate wav)) ;;;
          emit Call_drwav_uninit ;;;
          ret (false, pcmf32)
        else
          let n_samples := totalPCMFrameCount wav in
          let pcmf32 := resize (Z.to_nat n_samples) F32.zero pcmf32 in
          emit (Call_drwav_read_pcm_frames_f32 n_samples) ;;;
          let pcmf32 := store_frames (drwav_read_pcm_frames_f32 wav n_samples) pcmf32 in
          emit Call_drwav_uninit ;;;
          logi (Successfully_read_from_WAV (length pcmf32)) ;;;
          (if (10 <? length pcmf32)%nat
           then logi (First_10_samples (take 10 pcmf32))
           else ret tt) ;;;
          ret (true, pcmf32)
    | None =>
        loge (Failed_to_open_WAV_file filename) ;;;
        emit (Call_ifstream_open filename) ;;;
        match ifstream_open filename with
        | None =>
            loge (Failed_to_open_file_as_raw_PCM filename) ;;;
            ret (false, pcmf32)
        | Some Unsized =>
            (* [file_size] is no size a vector can take: [pcm16.resize] throws *)
            fault
        | Some (Regular bytes) =>
            let file_size := length bytes in
            logi (Reading_as_raw_PCM_file file_size) ;;;
            emit (Call_ifstream_read file_size) ;;;
            (if (0 <? read_overrun bytes)%nat then fault else ret tt) ;;;
            let pcm16 := read_pcm16 bytes in
            let pcmf32 := resize (length pcm16) F32.zero pcmf32 in
            let pcmf32 := convert_loop pcm16 (length pcm16) 0 pcmf32 in
            logi (Read_from_raw_PCM_file (length pcmf32)) ;;;
            ret (true, pcmf32)
        end
    end
  else
    loge (Unsupported_file_format filename) ;;;
    ret (false, pcmf32).

(* ------------------------------------------------------------------ *)
(** *** nativeInitModel *)

Definition nativeInitModel (modelPath : string) : M bool :=
  let path := modelPath in
  c <- get_ctx ;;
  match c with
  | Some h => call_whisper_free h ;;; set_ctx None
  | None => ret tt
  end ;;;
  logi (Loading_model_from path) ;;;
  c' <- call_whisper_init_from_file path ;;
  set_ctx c' ;;;
  match c' with
  | None => loge Failed_to_initialize_whisper_context ;;; ret false
  | Some _ => logi Model_loaded_successfully ;;; ret true
  end.

(* ------------------------------------------------------------------ *)
(** *** nativeTranscribeAudio *)

Definition transcribe_params : whisper_full_params :=
  let params := whisper_full_default_params WHISPER_SAMPLING_GREEDY in
  {| strategy := strategy params;
     n_threads := Z.min 4 hardware_concurrency;
     translate := false;
     print_progress := true;
     print_realtime := true;
     print_timestamps := true;
     language := "en" |}.

(** [for (int i = 0; i < n_segments; ++i) { ... result += text; result += " "; }]
    with [n] iterations to go from index [i]. *)
Fixpoint segment_loop (h : handle) (n : nat) (i : Z) (result : string) : M string :=
  match n with
  | O => ret result
  | S k =>
      c <- deref h ;;
      let text := whisper_full_get_segment_text c i in
      logi (Segment i text) ;;;
      segment_loop h k (i + 1) ((result +:+ text) +:+ " ")
  end.

Definition nativeTranscribeAudio (audioPath : string) : M string :=
  c <- get_ctx ;;
  match c with
  | None =>
      loge Whisper_context_not_initialized ;;;
      ret "Error: Model not initialized"%string
  | Some h =>
      let path := audioPath in
      logi (Transcribing_audio_from path) ;;;
      r <- read_audio_file path [] ;;
      let '(ok, pcmf32) := r in
      if negb ok then
        loge (Failed_to_read_audio_file path) ;;;
        ret "Error: Failed to read audio file"%string
      else
        logi (Successfully_loaded_audio (length pcmf32)) ;;;
        if (length pcmf32 <? 1000)%nat then
          loge (Audio_file_too_short (length pcmf32)) ;;;
          ret "Error: Audio file too short"%string
        else
          let params := transcribe_params in
          logi (Starting_whisper_full (length pcmf32)) ;;;
          rc <- call_whisper_full h params pcmf32 ;;
          if negb (rc =? 0) then
            loge Failed_to_process_audio ;;;
            ret "Error: Failed to process audio"%string
          else
            wc <- deref h ;;
            let n_segments := whisper_full_n_segments wc in
            logi (Transcription_complete n_segments) ;;;
            if n_segments =? 0 then
              logi No_transcription_segments_found ;;;
              ret "No speech detected"%string
            else
              segment_loop h (Z.to_nat n_segments) 0 ""%string
  end.

(* ------------------------------------------------------------------ *)
(** *** nativeFreeModel *)

Definition nativeFreeModel : M unit :=
  c <- get_ctx ;;
  match c with
  | Some h =>
      call_whisper_free h ;;;
      set_ctx None ;;;
      logi Whisper_context_freed
  | None => ret tt
  end.

(* ------------------------------------------------------------------ *)
(** *** Session invariant and reachable states *)

(** [is_ready()] of the specification: a context is loaded. *)
Definition is_ready (st : State) : bool :=
  match ctx st with Some _ => true | None => false end.

(** The pointer [ctx] owns the only allocated context. *)
Definition session_ok (st : State) : Prop :=
  match ctx st with
  | Some h => exists c, contexts st = {[ h := c ]}
  | None => contexts st = ∅
  end.

(** Number of whisper contexts allocated and not yet freed. *)
Definition live_contexts (st : State) : nat := size (contexts st).

Inductive bridge_call : Type :=
| InitModel (modelPath : string)
| TranscribeAudio (audioPath : string)
| FreeModel.

(** State after a call, [None] if the call faults. *)
Definition run_call (c : bridge_call) (st : State) : option State :=
  match c with
  | InitModel p => match nativeInitModel p st with Ok _ st' => Some st' | Fault => None end
  | TranscribeAudio p =>
      match nativeTranscribeAudio p st with Ok _ st' => Some st' | Fault => None end
  | FreeModel => match nativeFreeModel st with Ok _ st' => Some st' | Fault => None end
  end.

(** State after a sequence of calls, first call first. *)
Fixpoint run_calls (cs : list bridge_call) (st : State) : option State :=
  match cs with
  | [] => Some st
  | c :: cs' =>
      match run_call c st with
      | Some st' => run_calls cs' st'
      | None => None
      end
  end.

(** The events a computation adds to the trace. *)
Definition emitted {A} (m : M A) (st : State) : list event :=
  match m st with
  | Ok _ st' => drop (length (trace st)) (trace st')
  | Fault => []
  end.

End Bridge.

Arguments Ok {_ A} a st.
Arguments Fault {_ A}.

(* ================================================================== *)
(** ** The specification's vocabulary *)

(** "ends in [suffix]": some tail of [s] is [suffix]. *)
Fixpoint ends_in (suffix s : string) : bool :=
  String.eqb s suffix ||
  match s with
  | EmptyString => false
  | String _ s' => ends_in suffix s'
  end.

(** Segment assembly as the specification words it: each segment's text
    followed by a single space, in segment order. *)
Fixpoint join_segments (segments : list string) : string :=
  match segments with
  | [] => ""
  | text :: rest => text +:+ " " +:+ join_segments rest
  end.

(** The failure outcomes of [transcribe] and their boundary strings. *)
Inductive transcribe_failure : Type :=
| ModelNotReady
| AudioReadFailed
| AudioTooShort
| InferenceFailed.

Definition error_string (f : transcribe_failure) : string :=
  match f with
  | ModelNotReady => "Error: Model not initialized"
  | AudioReadFailed => "Error: Failed to read audio file"
  | AudioTooShort => "Error: Audio file too short"
  | InferenceFailed => "Error: Failed to process audio"
  end.

Section Vocabulary.
Context {whisper : WhisperLib} {dr_wav : DrWavLib} {host : Host}.

(** The events [read_audio_file] adds for a path. *)
Definition decode_events (path : string) : list event :=
  emitted (read_audio_file path []) initial_state.

(** What [read_audio_file] returns for a path, started on an empty vector
    (it reads nothing of the state).  Whether it returns at all is
    [decoder_crashes]. *)
Definition decoded (path : string) : bool * list float32 :=
  match read_audio_file path [] initial_state with
  | Ok r _ => r
  | Fault => (false, [])
  end.

(** [read_audio_file] does not return for the path: it faults. *)
Definition decoder_crashes (path : string) : bool :=
  match read_audio_file path [] initial_state with
  | Ok _ _ => false
  | Fault => true
  end.

(** A request for [path] does not return: a context is loaded, so the
    decoder is run, and the decoder faults. *)
Definition request_crashes (st : State) (path : string) : bool :=
  is_ready st && decoder_crashes path.

Definition call_crashes (c : bridge_call) (st : State) : bool :=
  match c with
  | TranscribeAudio p => request_crashes st p
  | InitModel _ | FreeModel => false
  end.

(** The segments a context holds after a run, in order. *)
Definition segments_of (wc : whisper_context) : list string :=
  map (whisper_full_get_segment_text wc) (seqZ 0 (whisper_full_n_segments wc)).

(** The failure, if any, a transcription request runs into, following the
    steps of the specification: session not ready, decode error, fewer than
    1000 samples, non-zero return of inference.  A decoder that does not
    return reports no failure. *)
Definition failure_of (st : State) (path : string) : option transcribe_failure :=
  match ctx st with
  | None => Some ModelNotReady
  | Some h =>
      if decoder_crashes path then None else
      match decoded path with
      | (false, _) => Some AudioReadFailed
      | (true, samples) =>
          if (length samples <? 1000)%nat then Some AudioTooShort
          else match contexts st !! h with
               | Some wc =>
                   if fst (whisper_full wc transcribe_params samples) =? 0
                   then None else Some InferenceFailed
               | None => None
               end
      end
  end.

End Vocabulary.

(* ================================================================== *)
(** ** Mock collaborators *)

Module Mock.

(** A context remembers its model and the segments of its last run. *)
Record context : Type := { model : string; segments : list string }.

Definition init (path : string) : option context :=
  if String.eqb path "missing.bin" then None
  else Some {| model := path; segments := [] |}.

Definition default_params (s : whisper_sampling_strategy) : whisper_full_params :=
  {| strategy := s; n_threads := 1; translate := true; print_progress := false;
     print_realtime := false; print_timestamps := false; language := "auto" |}.

(** The model named "failing.bin" fails every run, "silent.bin" hears
    nothing, any other model hears "Hello", "world". *)
Definition full (c : context) (p : whisper_full_params) (samples : list float32)
    : Z * context :=
  if String.eqb (model c) "failing.bin" then (1, c)
  else if String.eqb (model c) "silent.bin" then (0, {| model := model c; segments := [] |})
  else (0, {| model := model c; segments := ["Hello"; "world"]%string |}).

#[export] Instance whisper : WhisperLib := {|
  whisper_context := context;
  whisper_init_from_file := init;
  whisper_full_default_params := default_params;
  whisper_full := full;
  whisper_full_n_segments := fun c => Z.of_nat (length (segments c));
  whisper_full_get_segment_text := fun c i => nth (Z.to_nat i) (segments c) ""%string;
|}.

Record wav : Type := { wav_channels : Z; wav_rate : Z; wav_frames : list float32 }.

Definition wav_init (path : string) : option wav :=
  if String.eqb path "stereo.wav" then
    Some {| wav_channels := 2; wav_rate := 16000; wav_frames := repeat F32.zero 4000 |}
  else if String.eqb path "cd.wav" then
    Some {| wav_channels := 1; wav_rate := 44100; wav_frames := repeat F32.zero 4000 |}
  else if String.eqb path "speech.wav" then
    Some {| wav_channels := 1; wav_rate := 16000; wav_frames := repeat F32.zero 1200 |}
  else None.

#[export] Instance dr_wav : DrWavLib := {|
  drwav := wav;
  drwav_init_file := wav_init;
  channels := wav_channels;
  sampleRate := wav_rate;
  totalPCMFrameCount := fun w => Z.of_nat (length (wav_frames w));
  drwav_read_pcm_frames_f32 := fun w n => take (Z.to_nat n) (wav_frames w);
|}.

(** The files that open.  The first seven are headerless; "stereo.wav"
    and "cd.wav" are the containers [wav_init] parses, and their bytes could
    be read as raw PCM as well; "folder.wav" is a directory. *)
Definition open (path : string) : option ifstream :=
  if String.eqb path "raw1000.wav" then Some (Regular (repeat x10 2000))
  else if String.eqb path "raw999.wav" then Some (Regular (repeat x10 1998))
  else if String.eqb path "odd.wav" then Some (Regular [x00; x80; xff; x7f; x01])
  else if String.eqb path "one.wav" then Some (Regular [x2a])
  else if String.eqb path "pair.wav" then Some (Regular [x00; x80; xff; x7f])
  else if String.eqb path "empty.wav" then Some (Regular [])
  else if String.eqb path "clip.pcm" then Some (Regular (repeat x10 2000))
  else if String.eqb path "stereo.wav" then Some (Regular (repeat x10 2000))
  else if String.eqb path "cd.wav" then Some (Regular (repeat x10 2000))
  else if String.eqb path "folder.wav" then Some Unsized
  else None.

#[export] Instance host : Host := {|
  ifstream_open := open;
  hardware_concurrency := 8;
|}.

(** A session after loading [model] into a fresh process. *)
Definition loaded (model : string) : State :=
  match nativeInitModel model initial_state with
  | Ok _ st => st
  | Fault => initial_state
  end.

End Mock.

(* ================================================================== *)
(** ** Further vocabulary and mocks *)

(** Two bytes as a little-endian two's-complement number of 16 bits, by
    the bits: the first byte holds bits 0 to 7, the second bits 8 to 15, and
    bit 15 is the sign. *)
Definition le16_signed_Z (first second : Z) : Z :=
  let u := Z.lor first (Z.shiftl second 8) in
  if Z.testbit u 15 then u - 2 ^ 16 else u.

Definition le16_signed (first second : byte) : Z :=
  le16_signed_Z (Z.of_N (Byte.to_N first)) (Z.of_N (Byte.to_N second)).

(** A headerless file as signed 16-bit little-endian PCM. *)
Fixpoint raw_pcm_samples (bytes : list byte) : list Z :=
  match bytes with
  | first :: second :: rest => le16_signed first second :: raw_pcm_samples rest
  | _ => []
  end.

(** The arithmetic of [int16_of_bytes] on the numbers of two bytes. *)
Definition int16_of_Z (lo hi : Z) : Z :=
  let u := lo + 256 * hi in
  if u <? 32768 then u else u - 65536.

(** The two readings agree on the pair of bytes numbered [i mod 256] and
    [i / 256]. *)
Definition le16_checkb (i : Z) : bool :=
  le16_signed_Z (i mod 256) (i / 256) =? int16_of_Z (i mod 256) (i / 256).

(** Calls by which a context is created or released. *)
Definition is_lifecycle_event (e : event) : bool :=
  match e with
  | Call_whisper_free _ | Call_whisper_init_from_file _ => true
  | _ => false
  end.

(** No event of [evs] creates or releases a context. *)
Definition no_lifecycle (evs : list event) : Prop :=
  Forall (fun e => is_lifecycle_event e = false) evs.

Section Outcome.
Context {whisper : WhisperLib} {dr_wav : DrWavLib} {host : Host}.

(** The string a request for [path] returns on a session whose context is
    [wc] when the decoder returns, read off the branches of
    [nativeTranscribeAudio]. *)
Definition transcript_of (wc : whisper_context) (path : string) : string :=
  match decoded path with
  | (false, _) => "Error: Failed to read audio file"
  | (true, pcmf32) =>
      if (length pcmf32 <? 1000)%nat then "Error: Audio file too short"
      else
        let '(rc, wc') := whisper_full wc transcribe_params pcmf32 in
        if negb (rc =? 0) then "Error: Failed to process audio"
        else if whisper_full_n_segments wc' =? 0 then "No speech detected"
        else join_segments (segments_of wc')
  end.

End Outcome.

(** A reader that delivers fewer frames than the header declares. *)
Module MockTruncated.

Record wav : Type := { declared : Z; frames : list float32 }.

Definition wav_init (path : string) : option wav :=
  if String.eqb path "cut.wav" then
    Some {| declared := 1500; frames := repeat (F32.of_int 1) 600 |}
  else None.

#[export] Instance dr_wav : DrWavLib := {|
  drwav := wav;
  drwav_init_file := wav_init;
  channels := fun _ => 1;
  sampleRate := fun _ => 16000;
  totalPCMFrameCount := declared;
  drwav_read_pcm_frames_f32 := fun w n => take (Z.to_nat n) (frames w);
|}.

#[export] Instance whisper : WhisperLib := Mock.whisper.

(** No file opens, and the hardware reports no thread count. *)
#[export] Instance host : Host := {|
  ifstream_open := fun _ => None;
  hardware_concurrency := 0;
|}.

End MockTruncated.

(* ================================================================== *)
(** ** Proof steps *)

(** Unfolds the monad's operations in the goal. *)
Ltac run_bridge :=
  cbv beta iota delta
    [bind ret fault emit logi loge get_ctx set_ctx deref call_whisper_free
     call_whisper_init_from_file call_whisper_full];
  cbn [ctx contexts trace with_events negb].

(** Closes a goal [Ok a st1 = Ok a st2] whose states differ in how the
    trace is bracketed. *)
Ltac same_trace :=
  unfold with_events; cbn [ctx contexts trace];
  repeat first [rewrite <- app_assoc | progress cbn [app]];
  first [reflexivity | repeat f_equal; congruence].

(* ================================================================== *)
(** * Properties *)

(** ** Samples *)

Lemma all_from_spec (P : Z -> bool) (n : nat) :
  forall lo, all_from P lo n = true ->
  forall z, lo <= z < lo + Z.of_nat n -> P z = true.
Proof.
  induction n as [|k IH]; intros lo Hall z Hz; simpl in Hall.
  - lia.
  - apply andb_true_iff in Hall as [Hlo Hrest].
    destruct (Z.eq_dec z lo) as [->|Hne]; [exact Hlo|].
    apply (IH (lo + 1)); [exact Hrest|lia].
Qed.

(** All 65536 values of an [int16_t] pass the check. *)
Lemma pcm16_check_all : all_from pcm16_checkb (-32768) (Z.to_nat 65536) = true.
Proof. vm_compute. reflexivity. Qed.

Lemma pcm16_check (s : Z) : -32768 <= s <= 32767 -> pcm16_checkb s = true.
Proof.
  intros Hs. apply (all_from_spec _ _ _ pcm16_check_all).
  rewrite Z2Nat.id by lia. lia.
Qed.

Lemma pcm16_to_f32_exact (s : Z) :
  -32768 <= s <= 32767 -> F32.denotesb (pcm16_to_f32 s) (s # 32768) = true.
Proof.
  intros Hs. pose proof (pcm16_check s Hs) as Hc. unfold pcm16_checkb in Hc.
  apply andb_true_iff in Hc as [Hc _]. apply andb_true_iff in Hc as [_ Hc]. exact Hc.
Qed.

Lemma pcm16_to_f32_range (s : Z) :
  -32768 <= s <= 32767 ->
  F32.in_rangeb (-1) (32767 # 32768) (pcm16_to_f32 s) = true.
Proof.
  intros Hs. pose proof (pcm16_check s Hs) as Hc. unfold pcm16_checkb in Hc.
  apply andb_true_iff in Hc as [_ Hc]. exact Hc.
Qed.

Lemma int16_of_bytes_range (lo hi : byte) : -32768 <= int16_of_bytes lo hi <= 32767.
Proof.
  unfold int16_of_bytes.
  pose proof (Byte.to_N_bounded lo). pose proof (Byte.to_N_bounded hi).
  destruct (_ <? _) eqn:E; [apply Z.ltb_lt in E|apply Z.ltb_ge in E]; lia.
Qed.

Lemma length_read_pcm16 (bytes : list byte) :
  length (read_pcm16 bytes) = (length bytes / 2)%nat.
Proof. unfold read_pcm16. now rewrite length_map, length_seq. Qed.

(** The bytes of the file are those of the elements, plus one stored past
    them when the size is odd. *)
Lemma read_pcm16_accounts_for_bytes (bytes : list byte) :
  length bytes = (2 * length (read_pcm16 bytes) + read_overrun bytes)%nat.
Proof.
  rewrite length_read_pcm16. unfold read_overrun.
  apply (Nat.div_mod_eq (length bytes) 2).
Qed.

Lemma read_pcm16_range (bytes : list byte) :
  Forall (fun s => -32768 <= s <= 32767) (read_pcm16 bytes).
Proof.
  unfold read_pcm16. apply Forall_map, Forall_forall. intros i _.
  apply int16_of_bytes_range.
Qed.

(** Induction over a list two elements at a time. *)
Lemma list_pair_ind {A} (P : list A -> Prop) :
  P [] -> (forall x, P [x]) -> (forall x y l, P l -> P (x :: y :: l)) ->
  forall l, P l.
Proof.
  intros Hnil Hone Hstep.
  assert (Hboth : forall l, P l /\ forall x, P (x :: l)).
  { induction l as [|y l [IH1 IH2]]; split; auto. }
  intros l. apply Hboth.
Qed.

(** The vector the file is read into holds the little-endian samples of the
    bytes taken in pairs. *)
Lemma read_pcm16_le16_samples (bytes : list byte) :
  read_pcm16 bytes = le16_samples bytes.
Proof.
  induction bytes as [| x | x y l IH] using list_pair_ind; try reflexivity.
  unfold read_pcm16 in *. cbn [length].
  change (S (S (length l)) / 2)%nat with ((2 + length l) / 2)%nat.
  replace ((2 + length l) / 2)%nat with (S (length l / 2)).
  2:{ replace (2 + length l)%nat with (1 * 2 + length l)%nat by lia.
      rewrite Nat.div_add_l by lia. lia. }
  cbn [seq map le16_samples]. f_equal.
  rewrite <- IH, <- seq_shift, map_map. apply map_ext. intros i.
  unfold byte_at. replace (2 * S i)%nat with (S (S (2 * i))) by lia.
  replace (S (S (2 * i)) + 1)%nat with (S (S (2 * i + 1))) by lia.
  reflexivity.
Qed.

Lemma length_convert_loop (pcm16 : list Z) (n : nat) :
  forall i buf, length (convert_loop pcm16 n i buf) = length buf.
Proof.
  induction n as [|k IH]; intros i buf; simpl; [reflexivity|].
  now rewrite IH, length_insert.
Qed.

Lemma convert_loop_lookup (pcm16 : list Z) (n : nat) :
  forall i (buf : list float32) j,
  (i + n <= length buf)%nat ->
  convert_loop pcm16 n i buf !! j =
    if decide (i <= j < i + n)%nat then Some (pcm16_to_f32 (nth j pcm16 0))
    else buf !! j.
Proof.
  induction n as [|k IH]; intros i buf j Hlen; simpl.
  - destruct (decide _); [lia|reflexivity].
  - rewrite IH by (rewrite length_insert; lia).
    destruct (decide (S i <= j < S i + k)%nat), (decide (i <= j < i + S k)%nat);
      try lia; try reflexivity.
    + assert (j = i) as -> by lia. apply list_lookup_insert_eq. lia.
    + apply list_lookup_insert_ne. lia.
Qed.

(** The conversion loop writes every element: whatever the vector held, it
    ends up as the samples divided by 32768. *)
Lemma convert_loop_map (pcm16 : list Z) (pcmf32 : list float32) :
  convert_loop pcm16 (length pcm16) 0 (resize (length pcm16) F32.zero pcmf32)
  = map pcm16_to_f32 pcm16.
Proof.
  apply list_eq. intros j.
  rewrite convert_loop_lookup by (rewrite length_resize; lia).
  change (map pcm16_to_f32 pcm16) with (pcm16_to_f32 <$> pcm16).
  rewrite list_lookup_fmap.
  destruct (decide (0 <= j < 0 + length pcm16)%nat) as [Hj|Hj].
  - destruct (lookup_lt_is_Some_2 pcm16 j ltac:(lia)) as [s Hs].
    rewrite Hs. simpl. f_equal. f_equal.
    apply nth_lookup_Some with (d := 0) in Hs. exact Hs.
  - rewrite (lookup_ge_None_2 pcm16 j) by lia.
    simpl. apply lookup_ge_None_2. rewrite length_resize. lia.
Qed.

(** ** Extension test *)

Lemma ends_in_spec (suffix s : string) :
  ends_in suffix s = true <-> exists stem, s = stem +:+ suffix.
Proof.
  induction s as [|a s IH]; cbn [ends_in].
  - rewrite orb_false_r, String.eqb_eq. split.
    + intros <-. now exists ""%string.
    + intros [[|b stem] Hs]; simpl in Hs; [now symmetry|discriminate].
  - rewrite orb_true_iff, String.eqb_eq, IH. split.
    + intros [<-|[stem ->]]; [now exists ""%string|now exists (String a stem)].
    + intros [[|b stem] Hs]; simpl in Hs; [left; now symmetry|].
      right. injection Hs as _ ->. now exists stem.
Qed.

Lemma is_wav_path_ends_in (filename : string) :
  is_wav_path filename = ends_in ".wav" filename.
Proof.
  unfold is_wav_path.
  induction filename as [|a s IH]; [reflexivity|].
  cbn [strrchr ends_in].
  destruct (strrchr s ".") as [r|] eqn:Hr.
  - rewrite <- IH.
    destruct (String.eqb (String a s) ".wav") eqn:E; [|reflexivity].
    apply String.eqb_eq in E. injection E as _ ->. discriminate Hr.
  - rewrite <- IH, orb_false_r.
    destruct (Ascii.eqb a ".") eqn:Ea; [reflexivity|].
    symmetry. apply String.eqb_neq. intros E. injection E as -> _. discriminate Ea.
Qed.

(** The code's test on the extension holds exactly of the paths that end
    in ".wav". *)
Lemma is_wav_path_spec (filename : string) :
  is_wav_path filename = true <-> exists stem, filename = stem +:+ ".wav".
Proof. rewrite is_wav_path_ends_in. apply ends_in_spec. Qed.

(** ** Running the bridge *)

Lemma string_app_assoc (a b c : string) : (a +:+ b) +:+ c = a +:+ (b +:+ c).
Proof.
  induction a as [|x a IH]; [reflexivity|].
  change (String x ((a +:+ b) +:+ c) = String x (a +:+ (b +:+ c))).
  f_equal. exact IH.
Qed.

Lemma string_app_nil_r (a : string) : a +:+ "" = a.
Proof.
  induction a as [|x a IH]; [reflexivity|].
  change (String x (a +:+ "") = String x a). f_equal. exact IH.
Qed.

Section Running.
Context {whisper : WhisperLib} {dr_wav : DrWavLib} {host : Host}.

Lemma with_events_nil (st : State) : with_events st [] = st.
Proof. destruct st. unfold with_events. simpl. now rewrite app_nil_r. Qed.

Lemma with_events_app (st : State) (evs1 evs2 : list event) :
  with_events (with_events st evs1) evs2 = with_events st (evs1 ++ evs2).
Proof. unfold with_events. simpl. now rewrite app_assoc. Qed.

Lemma emitted_with_events {A} (m : M A) (st : State) (a : A) (evs : list event) :
  m st = Ok a (with_events st evs) -> emitted m st = evs.
Proof. intros Hm. unfold emitted. rewrite Hm. simpl. apply drop_app_length. Qed.

End Running.

Section Decoder.
Context {whisper : WhisperLib} {dr_wav : DrWavLib} {host : Host}.

Lemma read_overrun_odd (bytes : list byte) :
  (0 <? read_overrun bytes)%nat = Nat.odd (length bytes).
Proof.
  unfold read_overrun. generalize (length bytes). intros n.
  assert (Hboth : ((0 <? n mod 2) = Nat.odd n
                   /\ (0 <? S n mod 2) = Nat.odd (S n))%nat).
  { induction n as [|n [IH1 IH2]]; [split; reflexivity|].
    split; [exact IH2|].
    replace (S (S n)) with (n + 1 * 2)%nat by lia.
    rewrite Nat.Div0.mod_add, IH1. replace (n + 1 * 2)%nat with (S (S n)) by lia.
    reflexivity. }
  apply Hboth.
Qed.

(** [read_audio_file] faults exactly in the raw-PCM fallback, on a stream
    that opens but has no size or an odd one. *)
Lemma read_audio_file_fault_iff (path : string) (v : list float32) (st : State) :
  read_audio_file path v st = Fault
  <-> is_wav_path path = true /\ drwav_init_file path = None
      /\ exists s, ifstream_open path = Some s /\ breaks_raw_reading s = true.
Proof.
  unfold read_audio_file.
  destruct (is_wav_path path).
  2:{ run_bridge. split; [discriminate|intros [[=] _]]. }
  destruct (drwav_init_file path) as [wav|].
  { destruct (negb (channels wav =? 1));
      [|destruct (negb (sampleRate wav =? 16000)); [|destruct (10 <? _)%nat]];
      run_bridge; (split; [discriminate|intros (_ & [=] & _)]). }
  destruct (ifstream_open path) as [[bytes|]|].
  - run_bridge. rewrite read_overrun_odd.
    destruct (Nat.odd (length bytes)) eqn:Hodd; run_bridge.
    + split; [intros _|reflexivity]. repeat split. exists (Regular bytes). now split.
    + split; [discriminate|]. intros (_ & _ & s & [= <-] & Hs).
      cbn [breaks_raw_reading] in Hs. congruence.
  - run_bridge. split; [intros _|reflexivity]. repeat split. exists Unsized. now split.
  - run_bridge. split; [discriminate|]. intros (_ & _ & s & [=] & _).
Qed.

(** When it does not fault, [read_audio_file] touches nothing but the
    trace, and what it returns and logs does not depend on the state. *)
Lemma read_audio_file_frame (path : string) (v : list float32) :
  (forall st, read_audio_file path v st = Fault)
  \/ exists r evs, Forall quiet evs /\
       forall st, read_audio_file path v st = Ok r (with_events st evs).
Proof.
  unfold read_audio_file.
  destruct (is_wav_path path).
  - destruct (drwav_init_file path) as [wav|].
    + right. destruct (negb (channels wav =? 1)).
      { eexists _, _. split; cycle 1. { intros st. run_bridge. same_trace. }
        repeat constructor. }
      destruct (negb (sampleRate wav =? 16000)).
      { eexists _, _. split; cycle 1. { intros st. run_bridge. same_trace. }
        repeat constructor. }
      destruct (10 <? _)%nat.
      { eexists _, _. split; cycle 1. { intros st. run_bridge. same_trace. }
        repeat constructor. }
      { eexists _, _. split; cycle 1. { intros st. run_bridge. same_trace. }
        repeat constructor. }
    + destruct (ifstream_open path) as [[bytes|]|].
      { destruct (0 <? read_overrun bytes)%nat eqn:Hover.
        - left. intros st. run_bridge. reflexivity.
        - right. eexists _, _. split; cycle 1.
          { intros st. run_bridge. same_trace. }
          repeat constructor. }
      { left. intros st. reflexivity. }
      { right. eexists _, _. split; cycle 1. { intros st. run_bridge. same_trace. }
        repeat constructor. }
  - right. eexists _, _. split; cycle 1. { intros st. run_bridge. same_trace. }
    repeat constructor.
Qed.

Lemma read_audio_file_crash (path : string) (st : State) :
  decoder_crashes path = true -> read_audio_file path [] st = Fault.
Proof.
  unfold decoder_crashes.
  destruct (read_audio_file_frame path []) as [Hf|(r & evs & _ & Hrun)].
  - intros _. apply Hf.
  - now rewrite (Hrun initial_state).
Qed.

Lemma read_audio_file_decoded (path : string) (st : State) :
  decoder_crashes path = false ->
  read_audio_file path [] st = Ok (decoded path) (with_events st (decode_events path)).
Proof.
  unfold decoder_crashes, decoded, decode_events.
  destruct (read_audio_file_frame path []) as [Hf|(r & evs & _ & Hrun)].
  - now rewrite (Hf initial_state).
  - intros _. rewrite (emitted_with_events _ _ _ _ (Hrun initial_state)).
    rewrite (Hrun initial_state). apply Hrun.
Qed.

(** A decoder that gives samples has returned. *)
Lemma decoded_true_no_crash (path : string) (v : list float32) :
  decoded path = (true, v) -> decoder_crashes path = false.
Proof.
  unfold decoded, decoder_crashes.
  destruct (read_audio_file path [] initial_state); [reflexivity|discriminate].
Qed.

Lemma decoded_crash (path : string) :
  decoder_crashes path = true -> decoded path = (false, []).
Proof.
  unfold decoded, decoder_crashes.
  destruct (read_audio_file path [] initial_state); [discriminate|reflexivity].
Qed.

Lemma decode_events_crash (path : string) :
  decoder_crashes path = true -> decode_events path = [].
Proof.
  unfold decode_events, decoder_crashes, emitted.
  destruct (read_audio_file path [] initial_state); [discriminate|reflexivity].
Qed.

Lemma decoder_crashes_iff (path : string) :
  decoder_crashes path = true
  <-> is_wav_path path = true /\ drwav_init_file path = None
      /\ exists s, ifstream_open path = Some s /\ breaks_raw_reading s = true.
Proof.
  rewrite <- (read_audio_file_fault_iff path [] initial_state). unfold decoder_crashes.
  destruct (read_audio_file path [] initial_state); split; congruence.
Qed.

Lemma decode_events_quiet (path : string) : Forall quiet (decode_events path).
Proof.
  unfold decode_events.
  destruct (read_audio_file_frame path []) as [Hf|(r & evs & Hq & Hrun)].
  - unfold emitted. rewrite (Hf initial_state). constructor.
  - now rewrite (emitted_with_events _ _ _ _ (Hrun initial_state)).
Qed.

End Decoder.

(** ** The decoder *)

Section DecoderClaims.
Context {whisper : WhisperLib} {dr_wav : DrWavLib} {host : Host}.

Lemma read_audio_file_raw (path : string) (bytes : list byte)
    (v : list float32) (st : State) :
  is_wav_path path = true ->
  drwav_init_file path = None ->
  ifstream_open path = Some (Regular bytes) ->
  Nat.even (length bytes) = true ->
  read_audio_file path v st
  = Ok (true, map pcm16_to_f32 (read_pcm16 bytes))
       (with_events st (raw_pcm_log path bytes)).
Proof.
  intros Hext Hwav Hopen Heven. unfold read_audio_file.
  rewrite Hext, Hwav, Hopen. run_bridge.
  rewrite read_overrun_odd, <- Nat.negb_even, Heven. run_bridge.
  rewrite convert_loop_map, length_map, length_read_pcm16.
  unfold raw_pcm_log. same_trace.
Qed.

Lemma read_audio_file_unopenable (path : string) (v : list float32) (st : State) :
  is_wav_path path = true ->
  drwav_init_file path = None ->
  ifstream_open path = None ->
  read_audio_file path v st
  = Ok (false, v)
       (with_events st [ Call_drwav_init_file path;
                         LOGE (Failed_to_open_WAV_file path);
                         Call_ifstream_open path;
                         LOGE (Failed_to_open_file_as_raw_PCM path) ]).
Proof.
  intros Hext Hwav Hopen. unfold read_audio_file.
  rewrite Hext, Hwav, Hopen. run_bridge. same_trace.
Qed.

Lemma read_audio_file_invalid_wav (path : string) (wav : drwav)
    (v : list float32) (st : State) :
  is_wav_path path = true ->
  drwav_init_file path = Some wav ->
  channels wav <> 1 \/ sampleRate wav <> 16000 ->
  read_audio_file path v st
  = Ok (false, v)
       (with_events st
          [ Call_drwav_init_file path;
            LOGI (Reading_WAV_file (channels wav) (sampleRate wav) (totalPCMFrameCount wav));
            LOGE (if channels wav =? 1 then WAV_file_must_be_16kHz (sampleRate wav)
                  else WAV_file_must_be_mono (channels wav));
            Call_drwav_uninit ]).
Proof.
  intros Hext Hwav Hbad. unfold read_audio_file. rewrite Hext, Hwav.
  destruct (channels wav =? 1) eqn:Hch; cbn [negb].
  - destruct (sampleRate wav =? 16000) eqn:Hrate; cbn [negb].
    + apply Z.eqb_eq in Hch, Hrate. lia.
    + run_bridge. same_trace.
  - run_bridge. same_trace.
Qed.

(** The raw-PCM fallback is entered only for a ".wav" path whose container
    dr_wav does not accept. *)
Lemma raw_pcm_fallback_only_after_parse_failure
    (path : string) (v : list float32) (st : State) :
  Exists (fun e => is_raw_pcm_event e = true) (emitted (read_audio_file path v) st) ->
  is_wav_path path = true /\ drwav_init_file path = None.
Proof.
  unfold read_audio_file.
  destruct (is_wav_path path) eqn:Hext.
  - destruct (drwav_init_file path) as [wav|] eqn:Hwav; [|auto].
    assert (Hnone : Forall (fun e => is_raw_pcm_event e = false)
                      (emitted (read_audio_file path v) st)).
    { unfold read_audio_file. rewrite Hext, Hwav.
      destruct (negb (channels wav =? 1));
        [|destruct (negb (sampleRate wav =? 16000));
          [|destruct (10 <? _)%nat]];
        (erewrite emitted_with_events; [|run_bridge; same_trace]);
        repeat constructor. }
    unfold read_audio_file in Hnone. rewrite Hext, Hwav in Hnone.
    intros Hex. exfalso. apply Exists_exists in Hex as (e & Hin & He).
    rewrite Forall_forall in Hnone. specialize (Hnone e Hin). congruence.
  - erewrite emitted_with_events; [|run_bridge; same_trace].
    intros Hex. apply Exists_exists in Hex as (e & Hin & He).
    apply list_elem_of_singleton in Hin. subst e. discriminate He.
Qed.

End DecoderClaims.

Section DecoderTheorems.
Context {whisper : WhisperLib} {dr_wav : DrWavLib} {host : Host}.

(** C2: a ".wav" path whose container dr_wav parses but whose channel count
    is not 1 or whose sample rate is not 16000 makes [read_audio_file] fail:
    it returns false and leaves the vector alone, the error logged is the
    mono one when the channel count is wrong and the 16 kHz one when only
    the rate is wrong, and no event of the raw-PCM fallback occurs.  The
    fallback is entered only when dr_wav rejects the container. *)
Theorem wav_validation_failure_is_terminal
    (path : string) (wav : drwav) (v : list float32) (st : State) :
  ends_in ".wav" path = true ->
  drwav_init_file path = Some wav ->
  channels wav <> 1 \/ sampleRate wav <> 16000 ->
  read_audio_file path v st
  = Ok (false, v)
       (with_events st
          [ Call_drwav_init_file path;
            LOGI (Reading_WAV_file (channels wav) (sampleRate wav) (totalPCMFrameCount wav));
            LOGE (if channels wav =? 1 then WAV_file_must_be_16kHz (sampleRate wav)
                  else WAV_file_must_be_mono (channels wav));
            Call_drwav_uninit ])
  /\ Forall (fun e => is_raw_pcm_event e = false) (emitted (read_audio_file path v) st)
  /\ (forall path' v' st',
        Exists (fun e => is_raw_pcm_event e = true)
               (emitted (read_audio_file path' v') st') ->
        ends_in ".wav" path' = true /\ drwav_init_file path' = None).
Proof.
  intros Hext Hwav Hbad. rewrite <- is_wav_path_ends_in in Hext.
  pose proof (read_audio_file_invalid_wav path wav v st Hext Hwav Hbad) as Hrun.
  split; [exact Hrun|split].
  - rewrite (emitted_with_events _ _ _ _ Hrun). repeat constructor.
  - intros path' v' st' Hex. rewrite <- is_wav_path_ends_in.
    now apply raw_pcm_fallback_only_after_parse_failure in Hex.
Qed.

(** C6: for a path that does not end in ".wav", [read_audio_file] fails at
    once: it returns false, leaves the vector alone, and the only thing it
    does is log the unsupported format; neither dr_wav nor the file is
    touched, whatever bytes the file holds. *)
Theorem non_wav_path_is_unsupported_format
    (path : string) (v : list float32) (st : State) :
  ends_in ".wav" path = false ->
  read_audio_file path v st
  = Ok (false, v) (with_events st [LOGE (Unsupported_file_format path)])
  /\ Forall (fun e => is_decode_event e = false) (emitted (read_audio_file path v) st).
Proof.
  intros Hext. rewrite <- is_wav_path_ends_in in Hext.
  assert (Hrun : read_audio_file path v st
                 = Ok (false, v) (with_events st [LOGE (Unsupported_file_format path)])).
  { unfold read_audio_file. rewrite Hext. run_bridge. same_trace. }
  split; [exact Hrun|].
  rewrite (emitted_with_events _ _ _ _ Hrun). repeat constructor.
Qed.

End DecoderTheorems.

(** ** The raw-PCM reading on files of odd size *)

(** [pcm16] is resized to [file_size / 2] elements and [file.read] is then
    asked for [file_size] bytes: one byte more than the vector owns whenever
    the size is odd. *)
Module RawReadDefect.
Import Mock.

(** C3: the code at a ".wav" file of one byte that dr_wav rejects and that
    opens.  The claim has the decoder read it as raw PCM, and fail only when
    the file does not open; the code stores the byte through the null
    [data()] of an empty vector and does not return.  Neither does it for
    "folder.wav", which opens but is a directory. *)
Theorem raw_fallback_dies_on_one_byte_file :
  ends_in ".wav" "one.wav" = true
  /\ drwav_init_file "one.wav" = None
  /\ ifstream_open "one.wav" = Some (Regular [x2a])
  /\ read_audio_file "one.wav" [] initial_state = Fault
  /\ ifstream_open "folder.wav" = Some Unsized
  /\ read_audio_file "folder.wav" [] initial_state = Fault.
Proof. repeat split. Qed.

(** C10: the code at an openable ".wav" file of five bytes that dr_wav
    rejects.  The claim has the fallback succeed with two samples; the code
    stores the fifth byte one past the two elements of the vector and does
    not return. *)
Theorem raw_fallback_overruns_on_odd_sized_file :
  ifstream_open "odd.wav" = Some (Regular [x00; x80; xff; x7f; x01])
  /\ drwav_init_file "odd.wav" = None
  /\ length (read_pcm16 [x00; x80; xff; x7f; x01]) = 2%nat
  /\ read_overrun [x00; x80; xff; x7f; x01] = 1%nat
  /\ read_audio_file "odd.wav" [] initial_state = Fault
  /\ nativeTranscribeAudio "odd.wav" (loaded "base.bin") = Fault.
Proof. repeat split. Qed.

End RawReadDefect.

(** ** The session *)

Section Session.
Context {whisper : WhisperLib} {dr_wav : DrWavLib} {host : Host}.

Lemma session_ok_live (st : State) :
  session_ok st -> live_contexts st = if is_ready st then 1%nat else 0%nat.
Proof.
  unfold session_ok, live_contexts, is_ready.
  destruct (ctx st) as [h|].
  - intros [c ->]. apply map_size_singleton.
  - intros ->. apply map_size_empty.
Qed.

Lemma session_ok_lookup (st : State) (h : handle) :
  session_ok st -> ctx st = Some h -> exists c, contexts st = {[ h := c ]}.
Proof. unfold session_ok. intros Hok Hctx. now rewrite Hctx in Hok. Qed.

Lemma nativeFreeModel_unloaded (st : State) :
  ctx st = None -> nativeFreeModel st = Ok tt st.
Proof. intros Hctx. unfold nativeFreeModel. run_bridge. now rewrite Hctx. Qed.

Lemma nativeFreeModel_loaded (st : State) (h : handle) :
  session_ok st -> ctx st = Some h ->
  nativeFreeModel st
  = Ok tt {| ctx := None; contexts := ∅;
             trace := trace st ++ [Call_whisper_free h; LOGI Whisper_context_freed] |}.
Proof.
  intros Hok Hctx. destruct (session_ok_lookup st h Hok Hctx) as [c Hc].
  unfold nativeFreeModel. run_bridge. rewrite Hctx. run_bridge.
  rewrite Hc, lookup_singleton_eq, delete_singleton_eq. same_trace.
Qed.

Lemma nativeInitModel_run (st : State) (path : string) :
  session_ok st ->
  let h' := fresh (dom (∅ : gmap handle whisper_context)) in
  let released := match ctx st with Some h => [Call_whisper_free h] | None => [] end in
  nativeInitModel path st
  = match whisper_init_from_file path with
    | Some c =>
        Ok true {| ctx := Some h'; contexts := {[ h' := c ]};
                   trace := trace st ++ released
                            ++ [LOGI (Loading_model_from path);
                                Call_whisper_init_from_file path;
                                LOGI Model_loaded_successfully] |}
    | None =>
        Ok false {| ctx := None; contexts := ∅;
                    trace := trace st ++ released
                             ++ [LOGI (Loading_model_from path);
                                 Call_whisper_init_from_file path;
                                 LOGE Failed_to_initialize_whisper_context] |}
    end.
Proof.
  intros Hok h' released. subst h' released.
  unfold nativeInitModel. run_bridge.
  destruct (ctx st) as [h|] eqn:Hctx.
  - destruct (session_ok_lookup st h Hok Hctx) as [c Hc].
    run_bridge. rewrite Hc, lookup_singleton_eq, delete_singleton_eq.
    destruct (whisper_init_from_file path) as [c'|]; run_bridge.
    + rewrite insert_empty. same_trace.
    + same_trace.
  - unfold session_ok in Hok. rewrite Hctx in Hok. run_bridge. rewrite Hok.
    destruct (whisper_init_from_file path) as [c'|]; run_bridge.
    + rewrite insert_empty. same_trace.
    + same_trace.
Qed.

Lemma seqZ_succ (i : Z) (k : nat) :
  seqZ i (Z.of_nat (S k)) = i :: seqZ (i + 1) (Z.of_nat k).
Proof.
  rewrite seqZ_cons by lia. f_equal. f_equal; lia.
Qed.

(** The loop appends to [result] the texts of segments [i], [i+1], ... each
    followed by a space. *)
Lemma segment_loop_run (h : handle) (wc : whisper_context) (n : nat) :
  forall (i : Z) (result : string) (st : State),
  contexts st !! h = Some wc ->
  segment_loop h n i result st
  = Ok (result +:+ join_segments (map (whisper_full_get_segment_text wc)
                                      (seqZ i (Z.of_nat n))))
       (with_events st
          (map (fun j => LOGI (Segment j (whisper_full_get_segment_text wc j)))
               (seqZ i (Z.of_nat n)))).
Proof.
  induction n as [|k IH]; intros i result st Hwc.
  - change (Z.of_nat 0) with 0. rewrite seqZ_nil by lia. cbn [map join_segments segment_loop].
    unfold ret. now rewrite string_app_nil_r, with_events_nil.
  - rewrite seqZ_succ. cbn [map join_segments segment_loop]. run_bridge.
    rewrite Hwc.
    rewrite (IH (i + 1) _ (with_events st [LOGI (Segment i (whisper_full_get_segment_text wc i))]))
      by exact Hwc.
    rewrite with_events_app, !string_app_assoc. reflexivity.
Qed.

End Session.

(** ** Transcription *)

Section Transcription.
Context {whisper : WhisperLib} {dr_wav : DrWavLib} {host : Host}.

Lemma transcribe_not_ready (st : State) (path : string) :
  ctx st = None ->
  nativeTranscribeAudio path st
  = Ok "Error: Model not initialized"
       (with_events st [LOGE Whisper_context_not_initialized]).
Proof. intros Hctx. unfold nativeTranscribeAudio. run_bridge. now rewrite Hctx. Qed.

Lemma transcribe_read_failed (st : State) (path : string) (h : handle)
    (v : list float32) :
  ctx st = Some h ->
  decoder_crashes path = false ->
  decoded path = (false, v) ->
  nativeTranscribeAudio path st
  = Ok "Error: Failed to read audio file"
       (with_events st (LOGI (Transcribing_audio_from path) :: decode_events path
                        ++ [LOGE (Failed_to_read_audio_file path)])).
Proof.
  intros Hctx Hsafe Hdec. unfold nativeTranscribeAudio. run_bridge. rewrite Hctx.
  run_bridge. rewrite (read_audio_file_decoded path _ Hsafe), Hdec.
  run_bridge. same_trace.
Qed.

(** On a loaded session a decoder that faults takes the request with it. *)
Lemma transcribe_crash (st : State) (path : string) (h : handle) :
  ctx st = Some h ->
  decoder_crashes path = true ->
  nativeTranscribeAudio path st = Fault.
Proof.
  intros Hctx Hcrash. unfold nativeTranscribeAudio. run_bridge. rewrite Hctx.
  run_bridge. now rewrite (read_audio_file_crash path _ Hcrash).
Qed.

Lemma transcribe_too_short (st : State) (path : string) (h : handle)
    (v : list float32) :
  ctx st = Some h ->
  decoded path = (true, v) ->
  (length v < 1000)%nat ->
  nativeTranscribeAudio path st
  = Ok "Error: Audio file too short"
       (with_events st (LOGI (Transcribing_audio_from path) :: decode_events path
                        ++ [LOGI (Successfully_loaded_audio (length v));
                            LOGE (Audio_file_too_short (length v))])).
Proof.
  intros Hctx Hdec Hlen. unfold nativeTranscribeAudio. run_bridge. rewrite Hctx.
  run_bridge.
  rewrite (read_audio_file_decoded path _ (decoded_true_no_crash path v Hdec)), Hdec.
  run_bridge. apply Nat.ltb_lt in Hlen. rewrite Hlen. same_trace.
Qed.

(** From the call of inference on: the context is replaced by what the run
    leaves, and the result is read off it. *)
Lemma transcribe_inferred (st : State) (path : string) (h : handle)
    (v : list float32) (wc wc' : whisper_context) (rc : Z) :
  ctx st = Some h ->
  decoded path = (true, v) ->
  (1000 <= length v)%nat ->
  contexts st !! h = Some wc ->
  whisper_full wc transcribe_params v = (rc, wc') ->
  let st1 :=
    {| ctx := ctx st; contexts := <[h := wc']> (contexts st);
       trace := trace st ++ LOGI (Transcribing_audio_from path) :: decode_events path
                ++ [LOGI (Successfully_loaded_audio (length v));
                    LOGI (Starting_whisper_full (length v));
                    Call_whisper_full h transcribe_params v] |} in
  let n := whisper_full_n_segments wc' in
  nativeTranscribeAudio path st
  = if rc =? 0 then
      if n =? 0 then
        Ok "No speech detected"
           (with_events st1 [LOGI (Transcription_complete n);
                             LOGI No_transcription_segments_found])
      else
        Ok (join_segments (segments_of wc'))
           (with_events st1
              (LOGI (Transcription_complete n)
               :: map (fun j => LOGI (Segment j (whisper_full_get_segment_text wc' j)))
                      (seqZ 0 n)))
    else
      Ok "Error: Failed to process audio" (with_events st1 [LOGE Failed_to_process_audio]).
Proof.
  intros Hctx Hdec Hlen Hwc Hfull st1 n. subst st1 n.
  unfold nativeTranscribeAudio. run_bridge. rewrite Hctx.
  run_bridge.
  rewrite (read_audio_file_decoded path _ (decoded_true_no_crash path v Hdec)), Hdec.
  run_bridge. apply Nat.ltb_ge in Hlen. rewrite Hlen. run_bridge. rewrite Hwc, Hfull. run_bridge.
  destruct (rc =? 0) eqn:Hrc; run_bridge; [|same_trace].
  rewrite lookup_insert_eq. run_bridge.
  destruct (whisper_full_n_segments wc' =? 0) eqn:Hn; run_bridge; [same_trace|].
  erewrite segment_loop_run by (cbn [contexts]; apply lookup_insert_eq).
  unfold segments_of.
  assert (Hseq : seqZ 0 (Z.of_nat (Z.to_nat (whisper_full_n_segments wc')))
                 = seqZ 0 (whisper_full_n_segments wc')).
  { destruct (Z.le_gt_cases 0 (whisper_full_n_segments wc')) as [Hpos|Hneg].
    - now rewrite Z2Nat.id.
    - rewrite Z2Nat.nonpos by lia. now rewrite !seqZ_nil by lia. }
  rewrite Hseq. same_trace.
Qed.

End Transcription.

(** ** The bridge *)

Section BridgeTheorems.
Context {whisper : WhisperLib} {dr_wav : DrWavLib} {host : Host}.

Lemma initial_session_ok : session_ok initial_state.
Proof. reflexivity. Qed.

Lemma request_crashes_false (st : State) (path : string) (h : handle) :
  ctx st = Some h -> request_crashes st path = false -> decoder_crashes path = false.
Proof. unfold request_crashes, is_ready. now intros ->. Qed.

(** On a well-formed session a transcription request faults exactly when
    it runs a decoder that faults. *)
Lemma transcribe_fault_iff (st : State) (path : string) :
  session_ok st ->
  nativeTranscribeAudio path st = Fault <-> request_crashes st path = true.
Proof.
  intros Hok. unfold request_crashes, is_ready.
  destruct (ctx st) as [h|] eqn:Hctx; cbn [andb].
  2:{ rewrite (transcribe_not_ready st path Hctx). split; discriminate. }
  destruct (decoder_crashes path) eqn:Hcrash.
  { split; [reflexivity|intros _]. now apply (transcribe_crash st path h). }
  split; [|discriminate]. intros Hfault. exfalso. revert Hfault.
  destruct (session_ok_lookup st h Hok Hctx) as [c Hc].
  destruct (decoded path) as [[|] v] eqn:Hdec.
  2:{ now rewrite (transcribe_read_failed st path h v Hctx Hcrash Hdec). }
  destruct (Nat.lt_ge_cases (length v) 1000) as [Hlen|Hlen].
  { now rewrite (transcribe_too_short st path h v Hctx Hdec Hlen). }
  destruct (whisper_full c transcribe_params v) as [rc c'] eqn:Hfull.
  assert (Hwc : contexts st !! h = Some c) by (rewrite Hc; apply lookup_singleton_eq).
  rewrite (transcribe_inferred st path h v c c' rc Hctx Hdec Hlen Hwc Hfull).
  destruct (rc =? 0); [destruct (_ =? 0)|]; discriminate.
Qed.

(** A transcription request that returns keeps the pointer, the set of
    allocated contexts and the invariant; it returns whenever it runs no
    faulting decoder. *)
Lemma transcribe_total (st : State) (path : string) :
  session_ok st ->
  request_crashes st path = false ->
  exists r st',
    nativeTranscribeAudio path st = Ok r st'
    /\ ctx st' = ctx st
    /\ dom (contexts st') = dom (contexts st)
    /\ session_ok st'.
Proof.
  intros Hok Hsafe.
  assert (Hlog : forall evs, session_ok (with_events st evs)) by (intros evs; exact Hok).
  destruct (ctx st) as [h|] eqn:Hctx.
  2:{ eexists _, _. split; [apply transcribe_not_ready; exact Hctx|].
      cbn [with_events ctx contexts]. auto. }
  pose proof (request_crashes_false st path h Hctx Hsafe) as Hcrash.
  destruct (session_ok_lookup st h Hok Hctx) as [c Hc].
  destruct (decoded path) as [[|] v] eqn:Hdec.
  2:{ eexists _, _.
      split; [eapply transcribe_read_failed; [exact Hctx|exact Hcrash|exact Hdec]|].
      cbn [with_events ctx contexts]. auto. }
  destruct (Nat.lt_ge_cases (length v) 1000) as [Hlen|Hlen].
  { eexists _, _.
    split; [eapply transcribe_too_short; [exact Hctx|exact Hdec|exact Hlen]|].
    cbn [with_events ctx contexts]. auto. }
  destruct (whisper_full c transcribe_params v) as [rc c'] eqn:Hfull.
  assert (Hwc : contexts st !! h = Some c) by (rewrite Hc; apply lookup_singleton_eq).
  rewrite (transcribe_inferred st path h v c c' rc Hctx Hdec Hlen Hwc Hfull).
  assert (Hins : <[h := c']> (contexts st) = {[ h := c' ]})
    by (rewrite Hc; apply insert_singleton_eq).
  destruct (rc =? 0); [destruct (_ =? 0)|];
    (eexists _, _; split; [reflexivity|];
     unfold session_ok; cbn [with_events ctx contexts]; rewrite Hctx, Hins;
     split; [reflexivity|split; [|now exists c']];
     now rewrite Hc, !dom_singleton_L).
Qed.

(** A call that does not crash returns and keeps the invariant. *)
Lemma run_call_safe (c : bridge_call) (st : State) :
  session_ok st -> call_crashes c st = false ->
  exists st', run_call c st = Some st' /\ session_ok st'.
Proof.
  intros Hok Hsafe. destruct c as [p|p|]; cbn [run_call].
  - rewrite (nativeInitModel_run st p Hok).
    destruct (whisper_init_from_file p) as [c|]; eexists; (split; [reflexivity|]).
    + unfold session_ok. cbn [ctx contexts]. now exists c.
    + reflexivity.
  - destruct (transcribe_total st p Hok Hsafe) as (r & st' & -> & _ & _ & Hok').
    now exists st'.
  - destruct (ctx st) as [h|] eqn:Hctx.
    + rewrite (nativeFreeModel_loaded st h Hok Hctx). eexists. split; reflexivity.
    + rewrite (nativeFreeModel_unloaded st Hctx). now exists st.
Qed.

Lemma run_call_none_iff (c : bridge_call) (st : State) :
  session_ok st -> run_call c st = None <-> call_crashes c st = true.
Proof.
  intros Hok. destruct (call_crashes c st) eqn:Hcrash.
  - split; [reflexivity|intros _]. destruct c as [p|p|]; try discriminate Hcrash.
    cbn [run_call call_crashes] in *.
    now rewrite (proj2 (transcribe_fault_iff st p Hok) Hcrash).
  - destruct (run_call_safe c st Hok Hcrash) as (st' & -> & _). split; discriminate.
Qed.

Lemma run_call_session_ok (c : bridge_call) (st st' : State) :
  session_ok st -> run_call c st = Some st' -> session_ok st'.
Proof.
  intros Hok Hrun. destruct (call_crashes c st) eqn:Hcrash.
  - apply (run_call_none_iff c st Hok) in Hcrash. congruence.
  - destruct (run_call_safe c st Hok Hcrash) as (st1 & Hrun1 & Hok1). congruence.
Qed.

Lemma run_calls_session_ok (cs : list bridge_call) :
  forall st st', session_ok st -> run_calls cs st = Some st' -> session_ok st'.
Proof.
  induction cs as [|c cs IH]; intros st st' Hok Hrun; cbn [run_calls] in Hrun.
  - now injection Hrun as <-.
  - destruct (run_call c st) as [st1|] eqn:Hc; [|discriminate].
    apply (IH st1 st'); [|exact Hrun]. now apply (run_call_session_ok c st st1).
Qed.

(** A sequence of calls returns when none of its transcriptions is of a
    file on which the decoder faults. *)
Lemma run_calls_total (cs : list bridge_call) :
  forall st, session_ok st ->
  (forall p, TranscribeAudio p ∈ cs -> decoder_crashes p = false) ->
  exists st', run_calls cs st = Some st' /\ session_ok st'.
Proof.
  induction cs as [|c cs IH]; intros st Hok Hsafe; cbn [run_calls].
  - now exists st.
  - assert (Hc : call_crashes c st = false).
    { destruct c as [p|p|]; try reflexivity. cbn [call_crashes]. unfold request_crashes.
      rewrite (Hsafe p) by (left). apply andb_false_r. }
    destruct (run_call_safe c st Hok Hc) as (st1 & -> & Hok1).
    apply IH; [exact Hok1|]. intros p Hp. apply Hsafe. now right.
Qed.

Lemma session_ok_at_most_one (st : State) :
  session_ok st -> (live_contexts st <= 1)%nat.
Proof. intros Hok. rewrite (session_ok_live st Hok). destruct (is_ready st); lia. Qed.

(** C1: when the session holds a context, decoding succeeds with at least
    1000 samples and inference returns 0, the request returns "No speech
    detected" if the context reports zero segments (which is none of the
    error strings), and otherwise the texts of segments 0, 1, ... in order,
    each followed by one space; for the segments "Hello", "world" that is
    "Hello world " with its trailing space. *)
Theorem transcript_joins_segments_in_order
    (st : State) (path : string) (h : handle) (v : list float32)
    (wc wc' : whisper_context) :
  ctx st = Some h ->
  contexts st !! h = Some wc ->
  decoded path = (true, v) ->
  (1000 <= length v)%nat ->
  whisper_full wc transcribe_params v = (0, wc') ->
  (exists st',
     nativeTranscribeAudio path st
     = Ok (if whisper_full_n_segments wc' =? 0 then "No speech detected"
           else join_segments (segments_of wc')) st')
  /\ (forall f, error_string f <> "No speech detected")
  /\ join_segments ["Hello"; "world"] = "Hello world ".
Proof.
  intros Hctx Hwc Hdec Hlen Hfull. split; [|split].
  - rewrite (transcribe_inferred st path h v wc wc' 0 Hctx Hdec Hlen Hwc Hfull).
    cbn [Z.eqb]. destruct (_ =? 0); eexists; reflexivity.
  - intros []; discriminate.
  - reflexivity.
Qed.

(** C4: with a context loaded and a successful decode, a buffer of fewer
    than 1000 samples makes the request return "Error: Audio file too
    short" with no call of inference and the contexts untouched; a buffer of
    1000 samples or more is handed to [whisper_full]. *)
Theorem short_audio_rejected_before_inference
    (st : State) (path : string) (h : handle) (v : list float32) :
  session_ok st ->
  ctx st = Some h ->
  decoded path = (true, v) ->
  if (length v <? 1000)%nat then
    exists st',
      nativeTranscribeAudio path st = Ok "Error: Audio file too short" st'
      /\ Forall quiet (emitted (nativeTranscribeAudio path) st)
      /\ contexts st' = contexts st
  else
    exists r st',
      nativeTranscribeAudio path st = Ok r st'
      /\ Call_whisper_full h transcribe_params v ∈ emitted (nativeTranscribeAudio path) st.
Proof.
  intros Hok Hctx Hdec.
  destruct (length v <? 1000)%nat eqn:Hlen.
  - apply Nat.ltb_lt in Hlen.
    pose proof (transcribe_too_short st path h v Hctx Hdec Hlen) as Hrun.
    eexists. split; [exact Hrun|split; [|reflexivity]].
    rewrite (emitted_with_events _ _ _ _ Hrun).
    constructor; [reflexivity|]. apply Forall_app. split; [apply decode_events_quiet|].
    repeat constructor.
  - apply Nat.ltb_ge in Hlen.
    destruct (session_ok_lookup st h Hok Hctx) as [c Hc].
    assert (Hwc : contexts st !! h = Some c) by (rewrite Hc; apply lookup_singleton_eq).
    destruct (whisper_full c transcribe_params v) as [rc c'] eqn:Hfull.
    pose proof (transcribe_inferred st path h v c c' rc Hctx Hdec Hlen Hwc Hfull) as Hrun.
    cbv zeta in Hrun. unfold emitted. rewrite Hrun.
    destruct (rc =? 0); [destruct (_ =? 0)|];
      (eexists _, _; split; [reflexivity|]);
      cbn [with_events trace]; rewrite <- !app_assoc, drop_app_length;
      set_solver.
Qed.

(** C5: when no context is loaded, as in the initial state and after any
    [nativeFreeModel], the request returns "Error: Model not initialized"
    for every path; all it does is log the error, so the audio file is
    neither opened nor parsed. *)
Theorem transcribe_without_model_fails_fast (st : State) (path : string) :
  is_ready st = false ->
  nativeTranscribeAudio path st
  = Ok "Error: Model not initialized" (with_events st [LOGE Whisper_context_not_initialized])
  /\ Forall (fun e => is_decode_event e = false) (emitted (nativeTranscribeAudio path) st)
  /\ is_ready initial_state = false
  /\ (forall st0 st1, nativeFreeModel st0 = Ok tt st1 -> is_ready st1 = false).
Proof.
  intros Hready.
  assert (Hctx : ctx st = None)
    by (unfold is_ready in Hready; destruct (ctx st); [discriminate|reflexivity]).
  pose proof (transcribe_not_ready st path Hctx) as Hrun.
  split; [exact Hrun|split; [|split; [reflexivity|]]].
  - rewrite (emitted_with_events _ _ _ _ Hrun). repeat constructor.
  - intros st0 st1. unfold nativeFreeModel. run_bridge.
    destruct (ctx st0) as [h|] eqn:Hctx0; run_bridge.
    + destruct (contexts st0 !! h); [|discriminate].
      intros [= <-]. reflexivity.
    + intros [= <-]. unfold is_ready. now rewrite Hctx0.
Qed.

(** C7: on a well-formed session, whenever the request runs into one of
    the four failures (no context, decode error, fewer than 1000 samples,
    non-zero return of inference) it returns exactly that failure's error
    string and nothing else, keeps the pointer [ctx] and hence readiness,
    keeps the same context allocated, and, unless inference ran, leaves the
    contexts exactly as they were. *)
Theorem transcribe_failure_keeps_session
    (st : State) (path : string) (f : transcribe_failure) :
  session_ok st ->
  failure_of st path = Some f ->
  exists st',
    nativeTranscribeAudio path st = Ok (error_string f) st'
    /\ ctx st' = ctx st
    /\ is_ready st' = is_ready st
    /\ session_ok st'
    /\ dom (contexts st') = dom (contexts st)
    /\ (f <> InferenceFailed -> contexts st' = contexts st).
Proof.
  intros Hok Hfail.
  assert (Hsafe : request_crashes st path = false).
  { unfold request_crashes, is_ready. unfold failure_of in Hfail.
    destruct (ctx st); [|reflexivity].
    destruct (decoder_crashes path); [discriminate|reflexivity]. }
  destruct (transcribe_total st path Hok Hsafe) as (r & st' & Hrun & Hctx' & Hdom & Hok').
  exists st'. rewrite Hrun.
  assert (Hgoal : r = error_string f /\ (f <> InferenceFailed -> contexts st' = contexts st)).
  { unfold failure_of in Hfail. destruct (ctx st) as [h|] eqn:Hctx.
    2:{ injection Hfail as <-. rewrite (transcribe_not_ready st path Hctx) in Hrun.
        injection Hrun as <- <-. now split. }
    pose proof (request_crashes_false st path h Hctx Hsafe) as Hcrash.
    rewrite Hcrash in Hfail.
    destruct (decoded path) as [[|] v] eqn:Hdec.
    2:{ injection Hfail as <-.
        rewrite (transcribe_read_failed st path h v Hctx Hcrash Hdec) in Hrun.
        injection Hrun as <- <-. now split. }
    destruct (length v <? 1000)%nat eqn:Hlen.
    { injection Hfail as <-. apply Nat.ltb_lt in Hlen.
      rewrite (transcribe_too_short st path h v Hctx Hdec Hlen) in Hrun.
      injection Hrun as <- <-. now split. }
    apply Nat.ltb_ge in Hlen.
    destruct (contexts st !! h) as [c|] eqn:Hwc; [|discriminate].
    destruct (whisper_full c transcribe_params v) as [rc c'] eqn:Hfull.
    cbn [fst] in Hfail. destruct (rc =? 0) eqn:Hrc; [discriminate|].
    injection Hfail as <-.
    rewrite (transcribe_inferred st path h v c c' rc Hctx Hdec Hlen Hwc Hfull) in Hrun.
    cbv zeta in Hrun. rewrite Hrc in Hrun. injection Hrun as <- _.
    split; [reflexivity|]. intros Hne. now contradict Hne. }
  destruct Hgoal as [-> Hsame].
  repeat split; try assumption. unfold is_ready. now rewrite Hctx'.
Qed.

End BridgeTheorems.

(** ** Model lifecycle *)

Section Lifecycle.
Context {whisper : WhisperLib} {dr_wav : DrWavLib} {host : Host}.

Lemma nativeInitModel_total (st : State) (path : string) :
  session_ok st ->
  exists b st',
    nativeInitModel path st = Ok b st'
    /\ session_ok st'
    /\ is_ready st' = b
    /\ b = bool_decide (is_Some (whisper_init_from_file path))
    /\ exists evs,
         emitted (nativeInitModel path) st
         = match ctx st with Some h => [Call_whisper_free h] | None => [] end
           ++ LOGI (Loading_model_from path) :: Call_whisper_init_from_file path :: evs.
Proof.
  intros Hok. pose proof (nativeInitModel_run st path Hok) as Hrun.
  cbv zeta in Hrun. unfold emitted. rewrite Hrun.
  destruct (whisper_init_from_file path) as [c|];
    eexists _, _; (split; [reflexivity|]); cbn [trace].
  - split; [unfold session_ok; cbn [ctx contexts]; now exists c|].
    split; [reflexivity|]. split; [reflexivity|].
    rewrite drop_app_length. eexists. reflexivity.
  - split; [reflexivity|]. split; [reflexivity|]. split; [reflexivity|].
    rewrite drop_app_length. eexists. reflexivity.
Qed.

(** C8: on a well-formed session, [nativeInitModel] releases the context
    [ctx] points to, if any, before it calls [whisper_init_from_file]; it
    returns whether that call gave a context; afterwards exactly one context
    is allocated if it did and none if it did not, in which case the session
    is unloaded.  A second load behaves the same, so after two successful
    loads one context is allocated, as after one.  From the initial state no
    sequence of bridge calls leaves more than one context allocated, and a
    sequence returns whenever none of its transcriptions is of a file on
    which the decoder faults. *)
Theorem load_releases_previous_context (st : State) (pathA pathB : string) :
  session_ok st ->
  exists bA stA bB stB,
    nativeInitModel pathA st = Ok bA stA
    /\ nativeInitModel pathB stA = Ok bB stB
    /\ (exists evs,
          emitted (nativeInitModel pathA) st
          = match ctx st with Some h => [Call_whisper_free h] | None => [] end
            ++ LOGI (Loading_model_from pathA) :: Call_whisper_init_from_file pathA :: evs)
    /\ bA = bool_decide (is_Some (whisper_init_from_file pathA))
    /\ live_contexts stA = (if bA then 1%nat else 0%nat)
    /\ live_contexts stB = (if bB then 1%nat else 0%nat)
    /\ (bA = false -> ctx stA = None /\ contexts stA = ∅)
    /\ session_ok stA /\ session_ok stB
    /\ (forall cs st',
          run_calls cs initial_state = Some st' -> (live_contexts st' <= 1)%nat)
    /\ (forall cs,
          (forall p, TranscribeAudio p ∈ cs -> decoder_crashes p = false) ->
          exists st',
            run_calls cs initial_state = Some st' /\ (live_contexts st' <= 1)%nat).
Proof.
  intros Hok.
  destruct (nativeInitModel_total st pathA Hok) as (bA & stA & HA & HokA & HrA & HbA & HevA).
  destruct (nativeInitModel_total stA pathB HokA) as (bB & stB & HB & HokB & HrB & _ & _).
  exists bA, stA, bB, stB.
  split; [exact HA|]. split; [exact HB|]. split; [exact HevA|]. split; [exact HbA|].
  split; [now rewrite (session_ok_live stA HokA), HrA|].
  split; [now rewrite (session_ok_live stB HokB), HrB|].
  split.
  { intros ->. unfold is_ready, session_ok in *.
    destruct (ctx stA); [discriminate|]. now split. }
  split; [exact HokA|]. split; [exact HokB|].
  split.
  - intros cs st' Hrun. apply session_ok_at_most_one.
    exact (run_calls_session_ok cs initial_state st' initial_session_ok Hrun).
  - intros cs Hsafe.
    destruct (run_calls_total cs initial_state initial_session_ok Hsafe)
      as (st' & Hrun & Hok').
    exists st'. split; [exact Hrun|now apply session_ok_at_most_one].
Qed.

(** C9: on a well-formed session [nativeFreeModel] does not fault; it
    releases the context [ctx] points to, if any, and leaves the session
    unloaded with no context allocated; called again on the resulting state
    it returns that very state, and on a session that is already unloaded it
    changes nothing at all. *)
Theorem unload_is_idempotent (st : State) :
  session_ok st ->
  exists st1,
    nativeFreeModel st = Ok tt st1
    /\ is_ready st1 = false
    /\ contexts st1 = ∅
    /\ nativeFreeModel st1 = Ok tt st1
    /\ (is_ready st = false -> st1 = st)
    /\ (forall h, ctx st = Some h ->
          emitted nativeFreeModel st = [Call_whisper_free h; LOGI Whisper_context_freed]).
Proof.
  intros Hok. destruct (ctx st) as [h|] eqn:Hctx.
  - pose proof (nativeFreeModel_loaded st h Hok Hctx) as Hrun.
    eexists. split; [exact Hrun|]. split; [reflexivity|]. split; [reflexivity|].
    split; [now apply nativeFreeModel_unloaded|].
    split; [unfold is_ready; rewrite Hctx; discriminate|].
    intros h' [= <-]. unfold emitted. rewrite Hrun. cbn [trace]. apply drop_app_length.
  - pose proof (nativeFreeModel_unloaded st Hctx) as Hrun.
    exists st. split; [exact Hrun|].
    split; [unfold is_ready; now rewrite Hctx|].
    split; [unfold session_ok in Hok; now rewrite Hctx in Hok|].
    split; [exact Hrun|]. split; [reflexivity|]. discriminate.
Qed.

End Lifecycle.

(* ================================================================== *)
(** * The theorems at work on the mock collaborators *)

Module Witness.
Import Mock.

Lemma wav_validation_failure_is_terminal_witness :
  (exists st', read_audio_file "stereo.wav" [] initial_state = Ok (false, []) st'
     /\ Forall (fun e => is_raw_pcm_event e = false) (trace st'))
  /\ (exists st', read_audio_file "cd.wav" [] initial_state = Ok (false, []) st'
     /\ last (removelast (trace st')) = Some (LOGE (WAV_file_must_be_16kHz 44100))).
Proof.
  split.
  - destruct (wav_validation_failure_is_terminal "stereo.wav"
                ({| wav_channels := 2; wav_rate := 16000;
                    wav_frames := repeat F32.zero 4000 |} : @drwav dr_wav)
                [] initial_state) as (Hrun & Hq & _).
    + reflexivity.
    + reflexivity.
    + left. simpl. lia.
    + eexists. split; [exact Hrun|]. repeat constructor.
  - destruct (wav_validation_failure_is_terminal "cd.wav"
                ({| wav_channels := 1; wav_rate := 44100;
                    wav_frames := repeat F32.zero 4000 |} : @drwav dr_wav)
                [] initial_state) as (Hrun & _).
    + reflexivity.
    + reflexivity.
    + right. simpl. lia.
    + eexists. split; [exact Hrun|]. reflexivity.
Defined.

Lemma non_wav_path_is_unsupported_format_witness :
  ifstream_open "clip.pcm" = Some (Regular (repeat x10 2000))
  /\ read_audio_file "clip.pcm" [] initial_state
     = Ok (false, []) (with_events initial_state [LOGE (Unsupported_file_format "clip.pcm")]).
Proof.
  split; [reflexivity|].
  apply (non_wav_path_is_unsupported_format "clip.pcm" [] initial_state). reflexivity.
Defined.

Lemma transcript_joins_segments_in_order_witness :
  (exists st', nativeTranscribeAudio "raw1000.wav" (loaded "base.bin")
               = Ok "Hello world " st')
  /\ (exists st', nativeTranscribeAudio "speech.wav" (loaded "silent.bin")
                  = Ok "No speech detected" st').
Proof.
  split.
  - edestruct (transcript_joins_segments_in_order (loaded "base.bin") "raw1000.wav")
      as [[st' Hrun] _];
      [reflexivity|reflexivity|reflexivity|vm_compute; lia|reflexivity|].
    exists st'. exact Hrun.
  - edestruct (transcript_joins_segments_in_order (loaded "silent.bin") "speech.wav")
      as [[st' Hrun] _];
      [reflexivity|reflexivity|reflexivity|vm_compute; lia|reflexivity|].
    exists st'. exact Hrun.
Defined.

Lemma short_audio_rejected_before_inference_witness :
  (exists st', nativeTranscribeAudio "raw999.wav" (loaded "base.bin")
               = Ok "Error: Audio file too short" st'
               /\ contexts st' = contexts (loaded "base.bin"))
  /\ (exists r st' samples,
        nativeTranscribeAudio "raw1000.wav" (loaded "base.bin") = Ok r st'
        /\ length samples = 1000%nat
        /\ Call_whisper_full 1%positive transcribe_params samples
           ∈ emitted (nativeTranscribeAudio "raw1000.wav") (loaded "base.bin")).
Proof.
  assert (Hok : session_ok (loaded "base.bin")) by (vm_compute; eexists; reflexivity).
  split.
  - assert (Hw := short_audio_rejected_before_inference (loaded "base.bin") "raw999.wav"
                    1%positive (snd (decoded "raw999.wav")) Hok eq_refl eq_refl).
    change (length (snd (decoded "raw999.wav")) <? 1000)%nat with true in Hw.
    destruct Hw as (st' & Hrun & _ & Hsame).
    exists st'. split; [exact Hrun|exact Hsame].
  - assert (Hw := short_audio_rejected_before_inference (loaded "base.bin") "raw1000.wav"
                    1%positive (snd (decoded "raw1000.wav")) Hok eq_refl eq_refl).
    change (length (snd (decoded "raw1000.wav")) <? 1000)%nat with false in Hw.
    destruct Hw as (r & st' & Hrun & Hcall).
    exists r, st', (snd (decoded "raw1000.wav")).
    split; [exact Hrun|]. split; [reflexivity|exact Hcall].
Defined.

Lemma transcribe_without_model_fails_fast_witness :
  nativeTranscribeAudio "raw1000.wav" initial_state
  = Ok "Error: Model not initialized"
       (with_events initial_state [LOGE Whisper_context_not_initialized]).
Proof.
  apply (transcribe_without_model_fails_fast initial_state "raw1000.wav"). reflexivity.
Defined.

Lemma transcribe_failure_keeps_session_witness :
  (exists st', nativeTranscribeAudio "raw1000.wav" (loaded "failing.bin")
               = Ok "Error: Failed to process audio" st'
               /\ is_ready st' = true)
  /\ (exists st', nativeTranscribeAudio "stereo.wav" (loaded "base.bin")
                  = Ok "Error: Failed to read audio file" st'
                  /\ contexts st' = contexts (loaded "base.bin")).
Proof.
  split.
  - destruct (transcribe_failure_keeps_session (loaded "failing.bin") "raw1000.wav"
                InferenceFailed) as (st' & Hrun & _ & Hready & _);
      [vm_compute; eexists; reflexivity|reflexivity|].
    exists st'. split; [exact Hrun|exact Hready].
  - destruct (transcribe_failure_keeps_session (loaded "base.bin") "stereo.wav"
                AudioReadFailed) as (st' & Hrun & _ & _ & _ & _ & Hsame);
      [vm_compute; eexists; reflexivity|reflexivity|].
    exists st'. split; [exact Hrun|]. apply Hsame. discriminate.
Defined.

Lemma load_releases_previous_context_witness :
  (exists stA stB,
     nativeInitModel "base.bin" (loaded "tiny.bin") = Ok true stA
     /\ nativeInitModel "small.bin" stA = Ok true stB
     /\ live_contexts stA = 1%nat /\ live_contexts stB = 1%nat)
  /\ (exists stA, nativeInitModel "missing.bin" (loaded "tiny.bin") = Ok false stA
                  /\ ctx stA = None /\ live_contexts stA = 0%nat).
Proof.
  split.
  - destruct (load_releases_previous_context (loaded "tiny.bin") "base.bin" "small.bin")
      as (bA & stA & bB & stB & HA & HB & _ & HbA & HlA & HlB & _);
      [vm_compute; eexists; reflexivity|].
    assert (HbB : bB = true).
    { destruct bB; [reflexivity|]. exfalso.
      rewrite HbA in HA. injection HA as <-. discriminate HB. }
    rewrite HbA in HA, HlA. rewrite HbB in HB, HlB.
    exists stA, stB. repeat split; assumption.
  - destruct (load_releases_previous_context (loaded "tiny.bin") "missing.bin" "small.bin")
      as (bA & stA & bB & stB & HA & _ & _ & HbA & HlA & _ & Hfail & _);
      [vm_compute; eexists; reflexivity|].
    rewrite HbA in HA, HlA. exists stA.
    split; [exact HA|]. split; [|exact HlA]. apply Hfail. exact HbA.
Defined.

Lemma unload_is_idempotent_witness :
  exists st1,
    nativeFreeModel (loaded "base.bin") = Ok tt st1
    /\ nativeFreeModel st1 = Ok tt st1
    /\ is_ready (loaded "base.bin") = true /\ is_ready st1 = false.
Proof.
  destruct (unload_is_idempotent (loaded "base.bin")) as (st1 & H1 & Hr & _ & H2 & _);
    [vm_compute; eexists; reflexivity|].
  exists st1. repeat split; assumption || reflexivity.
Defined.

End Witness.

(* ================================================================== *)
(** * Further properties *)

(** ** More on strings *)

Lemma string_length_app (a b : string) :
  String.length (a +:+ b) = (String.length a + String.length b)%nat.
Proof.
  induction a as [|x a IH]; [reflexivity|].
  change (S (String.length (a +:+ b)) = S (String.length a + String.length b)).
  now rewrite IH.
Qed.

Lemma string_app_same_length_tail (a : string) :
  forall b c d : string,
  a +:+ b = c +:+ d -> String.length b = String.length d -> b = d.
Proof.
  induction a as [|x a IH]; intros b c d Heq Hlen.
  - destruct c as [|y c]; [exact Heq|].
    change (b = String y (c +:+ d)) in Heq. rewrite Heq in Hlen.
    cbn [String.length] in Hlen. rewrite string_length_app in Hlen. lia.
  - destruct c as [|y c].
    + change (String x (a +:+ b) = d) in Heq. rewrite <- Heq in Hlen.
      cbn [String.length] in Hlen. rewrite string_length_app in Hlen. lia.
    + change (String x (a +:+ b) = String y (c +:+ d)) in Heq.
      injection Heq as _ Heq. now apply (IH b c d).
Qed.

(** ** More on the decoder *)

Section DecoderExtras.
Context {whisper : WhisperLib} {dr_wav : DrWavLib} {host : Host}.

Lemma length_store_frames (delivered buf : list float32) :
  length (store_frames delivered buf) = length buf.
Proof.
  unfold store_frames. rewrite length_app, length_take, length_drop. lia.
Qed.

Lemma read_audio_file_valid_wav (path : string) (wav : drwav)
    (v : list float32) (st : State) :
  is_wav_path path = true ->
  drwav_init_file path = Some wav ->
  channels wav = 1 ->
  sampleRate wav = 16000 ->
  let n := totalPCMFrameCount wav in
  let pcmf32 := store_frames (drwav_read_pcm_frames_f32 wav n)
                             (resize (Z.to_nat n) F32.zero v) in
  read_audio_file path v st
  = Ok (true, pcmf32)
       (with_events st
          ([ Call_drwav_init_file path;
             LOGI (Reading_WAV_file (channels wav) (sampleRate wav) n);
             Call_drwav_read_pcm_frames_f32 n;
             Call_drwav_uninit;
             LOGI (Successfully_read_from_WAV (length pcmf32)) ]
           ++ if (10 <? length pcmf32)%nat
              then [LOGI (First_10_samples (take 10 pcmf32))] else [])).
Proof.
  intros Hext Hwav Hch Hrate n pcmf32. subst n pcmf32.
  unfold read_audio_file. rewrite Hext, Hwav, Hch, Hrate. cbn [Z.eqb Pos.eqb negb].
  destruct (10 <? _)%nat; run_bridge; same_trace.
Qed.

Lemma read_audio_file_unsupported (path : string) (v : list float32) (st : State) :
  is_wav_path path = false ->
  read_audio_file path v st
  = Ok (false, v) (with_events st [LOGE (Unsupported_file_format path)]).
Proof. intros Hext. unfold read_audio_file. rewrite Hext. run_bridge. same_trace. Qed.

(** X1: the extension test accepts exactly the paths that end in ".wav":
    the part of the name from its last dot on has to be ".wav" itself.  The
    comparison is exact, so a name that ends in any other four characters,
    ".WAV" included, is turned away. *)
Theorem wav_extension_test_is_exact_suffix_test (filename : string) :
  (is_wav_path filename = true <-> exists stem, filename = stem +:+ ".wav")
  /\ (forall stem ext,
        filename = stem +:+ ext -> String.length ext = 4%nat -> ext <> ".wav" ->
        is_wav_path filename = false).
Proof.
  assert (Hiff : is_wav_path filename = true <-> exists stem, filename = stem +:+ ".wav")
    by (rewrite is_wav_path_ends_in; apply ends_in_spec).
  split; [exact Hiff|].
  intros stem ext -> Hlen Hne.
  destruct (is_wav_path (stem +:+ ext)) eqn:Hwav; [|reflexivity].
  destruct (proj1 Hiff eq_refl) as [stem' Heq].
  exfalso. apply Hne. now apply (string_app_same_length_tail stem ext stem' ".wav").
Qed.

(** X2: for a ".wav" path whose container dr_wav parses as mono at 16000 Hz,
    [read_audio_file] succeeds without opening the file itself, and the
    vector has exactly as many samples as the header declares frames,
    however many frames the reader delivers: started on an empty vector, the
    result is the delivered frames followed by zeros up to the declared
    count, so a short read goes unnoticed. *)
Theorem valid_wav_yields_declared_frame_count
    (path : string) (wav : drwav) (st : State) :
  ends_in ".wav" path = true ->
  drwav_init_file path = Some wav ->
  channels wav = 1 ->
  sampleRate wav = 16000 ->
  let n := Z.to_nat (totalPCMFrameCount wav) in
  let delivered := drwav_read_pcm_frames_f32 wav (totalPCMFrameCount wav) in
  exists pcmf32 st',
    read_audio_file path [] st = Ok (true, pcmf32) st'
    /\ length pcmf32 = n
    /\ pcmf32 = take n delivered ++ replicate (n - length delivered) F32.zero
    /\ Forall (fun e => is_raw_pcm_event e = false) (emitted (read_audio_file path []) st).
Proof.
  intros Hext Hwav Hch Hrate n delivered. rewrite <- is_wav_path_ends_in in Hext.
  pose proof (read_audio_file_valid_wav path wav [] st Hext Hwav Hch Hrate) as Hrun.
  cbv zeta in Hrun. eexists _, _. split; [exact Hrun|].
  split; [now rewrite length_store_frames, length_resize|].
  split.
  - unfold store_frames. rewrite length_resize. fold n delivered. f_equal.
    rewrite resize_nil, drop_replicate. reflexivity.
  - rewrite (emitted_with_events _ _ _ _ Hrun).
    destruct (10 <? _)%nat; repeat constructor.
Qed.

Lemma decoded_eq (path : string) (r : bool * list float32) (st st' : State) :
  read_audio_file path [] st = Ok r st' -> decoded path = r.
Proof.
  intros Hrun. unfold decoded.
  destruct (read_audio_file_frame path []) as [Hf|(r0 & evs & _ & Hr)].
  - rewrite Hf in Hrun. discriminate.
  - rewrite Hr in Hrun. injection Hrun as <- _. now rewrite (Hr initial_state).
Qed.


Lemma int16_of_bytes_inj (lo hi lo' hi' : byte) :
  int16_of_bytes lo hi = int16_of_bytes lo' hi' -> lo = lo' /\ hi = hi'.
Proof.
  unfold int16_of_bytes. intros Heq.
  pose proof (Byte.to_N_bounded lo). pose proof (Byte.to_N_bounded hi).
  pose proof (Byte.to_N_bounded lo'). pose proof (Byte.to_N_bounded hi').
  assert (Hn : Byte.to_N lo = Byte.to_N lo' /\ Byte.to_N hi = Byte.to_N hi').
  { destruct (_ <? _) eqn:E1 in Heq; destruct (_ <? _) eqn:E2 in Heq;
      [apply Z.ltb_lt in E1|apply Z.ltb_lt in E1|apply Z.ltb_ge in E1|apply Z.ltb_ge in E1];
      [apply Z.ltb_lt in E2|apply Z.ltb_ge in E2|apply Z.ltb_lt in E2|apply Z.ltb_ge in E2];
      lia. }
  destruct Hn as [Hlo Hhi].
  pose proof (Byte.of_to_N lo) as Ha. pose proof (Byte.of_to_N lo') as Hb.
  pose proof (Byte.of_to_N hi) as Hc. pose proof (Byte.of_to_N hi') as Hd.
  rewrite Hlo in Ha. rewrite Hhi in Hc. split; congruence.
Qed.

Lemma pcm16_to_f32_inj (s s' : Z) :
  -32768 <= s <= 32767 -> -32768 <= s' <= 32767 ->
  pcm16_to_f32 s = pcm16_to_f32 s' -> s = s'.
Proof.
  intros Hs Hs' Heq.
  pose proof (pcm16_to_f32_exact s Hs) as He.
  pose proof (pcm16_to_f32_exact s' Hs') as He'.
  rewrite <- Heq in He'. unfold F32.denotesb in He, He'.
  destruct (F32.to_Q (pcm16_to_f32 s)) as [q|]; [|discriminate].
  apply Qeq_bool_eq in He, He'. rewrite He in He'.
  unfold Qeq in He'. cbn [Qnum Qden] in He'. lia.
Qed.

Lemma le16_samples_inj (b1 : list byte) :
  forall b2,
  Nat.even (length b1) = true -> Nat.even (length b2) = true ->
  map pcm16_to_f32 (le16_samples b1) = map pcm16_to_f32 (le16_samples b2) ->
  b1 = b2.
Proof.
  induction b1 as [| x | x y l IH] using list_pair_ind; intros b2 He1 He2 Heq.
  - destruct b2 as [|x' [|y' l']]; [reflexivity|discriminate He2|discriminate Heq].
  - discriminate He1.
  - destruct b2 as [|x' [|y' l']]; [discriminate Heq|discriminate He2|].
    cbn [le16_samples map] in Heq. injection Heq as Hhead Htail.
    apply pcm16_to_f32_inj in Hhead; try apply int16_of_bytes_range.
    apply int16_of_bytes_inj in Hhead as [-> ->].
    f_equal. f_equal. apply IH; assumption.
Qed.

Lemma le16_check_all : all_from le16_checkb 0 (Z.to_nat 65536) = true.
Proof. vm_compute. reflexivity. Qed.

(** The byte arithmetic of the code is the little-endian two's-complement
    reading of the bits. *)
Lemma int16_of_bytes_le16_signed (lo hi : byte) :
  int16_of_bytes lo hi = le16_signed lo hi.
Proof.
  pose proof (Byte.to_N_bounded lo). pose proof (Byte.to_N_bounded hi).
  set (a := Z.of_N (Byte.to_N lo)). set (b := Z.of_N (Byte.to_N hi)).
  assert (Ha : 0 <= a <= 255) by (subst a; lia).
  assert (Hb : 0 <= b <= 255) by (subst b; lia).
  pose proof (all_from_spec _ _ _ le16_check_all (a + 256 * b)) as Hc.
  rewrite Z2Nat.id in Hc by lia. specialize (Hc ltac:(lia)).
  unfold le16_checkb in Hc.
  replace ((a + 256 * b) mod 256) with a in Hc
    by (apply (Z.mod_unique_pos _ 256 b a); lia).
  replace ((a + 256 * b) / 256) with b in Hc
    by (apply (Z.div_unique_pos _ 256 b a); lia).
  apply Z.eqb_eq in Hc. unfold le16_signed. fold a b. rewrite Hc. reflexivity.
Qed.

Lemma le16_samples_raw_pcm_samples (bytes : list byte) :
  le16_samples bytes = raw_pcm_samples bytes.
Proof.
  induction bytes as [| x | x y l IH] using list_pair_ind; try reflexivity.
  cbn [le16_samples raw_pcm_samples]. now rewrite IH, int16_of_bytes_le16_signed.
Qed.

(** X15: for a ".wav" path that dr_wav rejects and that opens as a regular
    file of even size, [read_audio_file] succeeds and uses every byte: it
    gives half as many samples as the file has bytes, the i-th being exactly
    the i-th little-endian two's-complement 16-bit number of the file over
    32768, a finite float in [-1, 32767/32768]. *)
Theorem even_sized_raw_file_decodes_little_endian
    (path : string) (bytes : list byte) (v : list float32) (st : State) :
  ends_in ".wav" path = true ->
  drwav_init_file path = None ->
  ifstream_open path = Some (Regular bytes) ->
  Nat.even (length bytes) = true ->
  exists pcmf32 st',
    read_audio_file path v st = Ok (true, pcmf32) st'
    /\ (2 * length pcmf32)%nat = length bytes
    /\ Forall2 (fun s x => F32.denotesb x (s # 32768) = true)
               (raw_pcm_samples bytes) pcmf32
    /\ Forall (fun x => F32.in_rangeb (-1) (32767 # 32768) x = true) pcmf32.
Proof.
  intros Hext Hwav Hopen Heven. rewrite <- is_wav_path_ends_in in Hext.
  eexists _, _.
  split; [apply (read_audio_file_raw path bytes v st Hext Hwav Hopen Heven)|].
  split.
  { rewrite length_map, length_read_pcm16.
    apply Nat.even_spec in Heven as [k ->].
    replace (2 * k)%nat with (k * 2)%nat by lia. rewrite Nat.div_mul by lia. lia. }
  split.
  - rewrite <- le16_samples_raw_pcm_samples, <- read_pcm16_le16_samples.
    change (map pcm16_to_f32 (read_pcm16 bytes)) with (pcm16_to_f32 <$> read_pcm16 bytes).
    apply Forall2_fmap_r, Forall_Forall2_diag.
    eapply Forall_impl; [apply read_pcm16_range|].
    intros s Hs. now apply pcm16_to_f32_exact.
  - apply Forall_map. eapply Forall_impl; [apply read_pcm16_range|].
    intros s Hs. now apply pcm16_to_f32_range.
Qed.

(** X5: the raw-PCM reading loses nothing: two files of even size that the
    fallback decodes to the same float samples have the same bytes. *)
Theorem raw_pcm_decoding_is_injective
    (path1 path2 : string) (bytes1 bytes2 : list byte) :
  ends_in ".wav" path1 = true -> drwav_init_file path1 = None ->
  ifstream_open path1 = Some (Regular bytes1) -> Nat.even (length bytes1) = true ->
  ends_in ".wav" path2 = true -> drwav_init_file path2 = None ->
  ifstream_open path2 = Some (Regular bytes2) -> Nat.even (length bytes2) = true ->
  decoded path1 = decoded path2 ->
  bytes1 = bytes2.
Proof.
  intros Hext1 Hwav1 Hopen1 Heven1 Hext2 Hwav2 Hopen2 Heven2 Heq.
  rewrite <- is_wav_path_ends_in in Hext1, Hext2.
  rewrite (decoded_eq _ _ _ _
             (read_audio_file_raw path1 bytes1 [] initial_state Hext1 Hwav1 Hopen1 Heven1)),
          (decoded_eq _ _ _ _
             (read_audio_file_raw path2 bytes2 [] initial_state Hext2 Hwav2 Hopen2 Heven2))
    in Heq.
  injection Heq as Heq. rewrite !read_pcm16_le16_samples in Heq.
  now apply (le16_samples_inj bytes1 bytes2).
Qed.

End DecoderExtras.

(** ** More on transcription *)

Lemma join_segments_length (segments : list string) :
  String.length (join_segments segments)
  = (sum_list_with String.length segments + length segments)%nat.
Proof.
  induction segments as [|text rest IH]; [reflexivity|].
  cbn [join_segments sum_list_with length].
  rewrite !string_length_app, IH. cbn [String.length]. lia.
Qed.

Lemma join_segments_ends_in_space (segments : list string) :
  segments <> [] -> ends_in " " (join_segments segments) = true.
Proof.
  intros Hne. apply ends_in_spec.
  induction segments as [|text rest IH]; [contradiction|].
  cbn [join_segments]. destruct rest as [|text' rest'].
  - exists text. cbn [join_segments]. now rewrite string_app_nil_r.
  - destruct IH as [stem Hstem]; [discriminate|].
    exists (text +:+ " " +:+ stem). rewrite Hstem, !string_app_assoc. reflexivity.
Qed.

(** A transcript assembled from segments is none of the fixed strings the
    bridge returns: it is empty or ends in a space, and they are neither. *)
Lemma join_segments_not_fixed (segments : list string) (s : string) :
  s <> ""%string -> ends_in " " s = false -> join_segments segments <> s.
Proof.
  intros Hne Hend Heq. destruct segments as [|text rest].
  - now subst s.
  - rewrite <- Heq, join_segments_ends_in_space in Hend; discriminate.
Qed.

Section TranscriptionExtras.
Context {whisper : WhisperLib} {dr_wav : DrWavLib} {host : Host}.

(** The return value as a function of the context and the path. *)
Lemma transcribe_returns (st : State) (path : string) (h : handle)
    (wc : whisper_context) :
  ctx st = Some h ->
  contexts st !! h = Some wc ->
  decoder_crashes path = false ->
  exists st',
    nativeTranscribeAudio path st = Ok (transcript_of wc path) st'
    /\ ctx st' = ctx st
    /\ match decoded path with
       | (true, v) =>
           if (length v <? 1000)%nat then contexts st' = contexts st
           else contexts st' = <[h := snd (whisper_full wc transcribe_params v)]> (contexts st)
       | (false, _) => contexts st' = contexts st
       end.
Proof.
  intros Hctx Hwc Hsafe. unfold transcript_of.
  destruct (decoded path) as [[|] v] eqn:Hdec.
  2:{ eexists. split; [eapply transcribe_read_failed; eassumption|]. now split. }
  destruct (length v <? 1000)%nat eqn:Hlen.
  { apply Nat.ltb_lt in Hlen.
    eexists. split; [eapply transcribe_too_short; eassumption|]. now split. }
  apply Nat.ltb_ge in Hlen.
  destruct (whisper_full wc transcribe_params v) as [rc wc'] eqn:Hfull.
  rewrite (transcribe_inferred st path h v wc wc' rc Hctx Hdec Hlen Hwc Hfull).
  destruct (rc =? 0); cbn [negb snd]; [destruct (_ =? 0)|];
    (eexists; split; [reflexivity|]; now split).
Qed.

End TranscriptionExtras.

Section BridgeExtras.
Context {whisper : WhisperLib} {dr_wav : DrWavLib} {host : Host}.

Lemma transcript_of_too_short_iff (wc : whisper_context) (path : string)
    (v : list float32) :
  decoded path = (true, v) ->
  transcript_of wc path = "Error: Audio file too short" <-> (length v < 1000)%nat.
Proof.
  intros Hdec. unfold transcript_of. rewrite Hdec.
  destruct (length v <? 1000)%nat eqn:Hlen.
  - apply Nat.ltb_lt in Hlen. tauto.
  - apply Nat.ltb_ge in Hlen.
    destruct (whisper_full wc transcribe_params v) as [rc wc'].
    destruct (rc =? 0); cbn [negb]; [destruct (_ =? 0)|]; split; try discriminate; try lia.
    intros Heq. exfalso. revert Heq. now apply join_segments_not_fixed.
Qed.


(** X7: on a loaded session, a mono 16000 Hz WAV is rejected as too short
    exactly when its header declares fewer than 1000 frames; how many frames
    the reader actually delivers plays no part. *)
Theorem wav_too_short_exactly_under_1000_declared_frames
    (st : State) (path : string) (h : handle) (wav : drwav) :
  session_ok st ->
  ctx st = Some h ->
  ends_in ".wav" path = true ->
  drwav_init_file path = Some wav ->
  channels wav = 1 ->
  sampleRate wav = 16000 ->
  exists r st',
    nativeTranscribeAudio path st = Ok r st'
    /\ (r = "Error: Audio file too short" <-> totalPCMFrameCount wav < 1000).
Proof.
  intros Hok Hctx Hext Hwav Hch Hrate. rewrite <- is_wav_path_ends_in in Hext.
  destruct (session_ok_lookup st h Hok Hctx) as [c Hc].
  assert (Hwc : contexts st !! h = Some c) by (rewrite Hc; apply lookup_singleton_eq).
  pose proof (decoded_eq _ _ _ _
                (read_audio_file_valid_wav path wav [] initial_state Hext Hwav Hch Hrate))
    as Hdec.
  destruct (transcribe_returns st path h c Hctx Hwc (decoded_true_no_crash _ _ Hdec))
    as (st' & Hrun & _).
  eexists _, st'. split; [exact Hrun|].
  rewrite (transcript_of_too_short_iff c path _ Hdec).
  rewrite length_store_frames, length_resize. lia.
Qed.

(** X8: when inference succeeds and reports [n > 0] segments, the string
    returned ends in a space, its length is the sum of the lengths of the
    [n] texts plus [n], and it is none of the error strings nor "No speech
    detected". *)
Theorem transcript_shape
    (st : State) (path : string) (h : handle) (v : list float32)
    (wc wc' : whisper_context) :
  ctx st = Some h ->
  contexts st !! h = Some wc ->
  decoded path = (true, v) ->
  (1000 <= length v)%nat ->
  whisper_full wc transcribe_params v = (0, wc') ->
  0 < whisper_full_n_segments wc' ->
  exists r st',
    nativeTranscribeAudio path st = Ok r st'
    /\ ends_in " " r = true
    /\ String.length r
       = (sum_list_with String.length (segments_of wc')
          + Z.to_nat (whisper_full_n_segments wc'))%nat
    /\ r <> "No speech detected"
    /\ forall f, r <> error_string f.
Proof.
  intros Hctx Hwc Hdec Hlen Hfull Hn.
  rewrite (transcribe_inferred st path h v wc wc' 0 Hctx Hdec Hlen Hwc Hfull).
  cbn [Z.eqb]. destruct (Z.eqb_spec (whisper_full_n_segments wc') 0) as [H0|_]; [lia|].
  assert (Hne : segments_of wc' <> []).
  { unfold segments_of. rewrite seqZ_cons by lia. discriminate. }
  eexists _, _. split; [reflexivity|].
  split; [now apply join_segments_ends_in_space|].
  split.
  { rewrite join_segments_length. f_equal. unfold segments_of.
    rewrite length_map, length_seqZ. reflexivity. }
  split; [now apply join_segments_not_fixed|].
  intros []; now apply join_segments_not_fixed.
Qed.

Lemma filter_quiet (evs : list event) :
  Forall quiet evs -> List.filter is_inference_event evs = [].
Proof.
  induction 1 as [|e evs He _ IH]; [reflexivity|].
  cbn [List.filter]. unfold quiet in He. now rewrite He.
Qed.

Lemma segment_logs_quiet (f : Z -> string) (l : list Z) :
  Forall quiet (map (fun j => LOGI (Segment j (f j))) l).
Proof. induction l; constructor; [reflexivity|assumption]. Qed.

(** X9: a request calls inference at most once: not at all when no context
    is loaded, decoding fails or fewer than 1000 samples were decoded, and
    otherwise exactly once, on the session's context, with the whole decoded
    buffer and with parameters that do not depend on the request; their
    thread count is at most 4 and at most what the hardware reports. *)
Theorem inference_is_called_at_most_once (st : State) (path : string) :
  session_ok st ->
  List.filter is_inference_event (emitted (nativeTranscribeAudio path) st)
  = match ctx st, decoded path with
    | Some h, (true, v) =>
        if (length v <? 1000)%nat then []
        else [Call_whisper_full h transcribe_params v]
    | _, _ => []
    end
  /\ n_threads transcribe_params <= 4
  /\ n_threads transcribe_params <= hardware_concurrency
  /\ translate transcribe_params = false
  /\ language transcribe_params = "en".
Proof.
  intros Hok. split; [|cbn [transcribe_params n_threads translate language]; repeat split; lia].
  destruct (ctx st) as [h|] eqn:Hctx.
  2:{ rewrite (emitted_with_events _ _ _ _ (transcribe_not_ready st path Hctx)). reflexivity. }
  destruct (session_ok_lookup st h Hok Hctx) as [c Hc].
  assert (Hwc : contexts st !! h = Some c) by (rewrite Hc; apply lookup_singleton_eq).
  destruct (decoder_crashes path) eqn:Hcrash.
  { unfold emitted. rewrite (transcribe_crash st path h Hctx Hcrash).
    now rewrite (decoded_crash path Hcrash). }
  destruct (decoded path) as [[|] v] eqn:Hdec.
  2:{ rewrite (emitted_with_events _ _ _ _
                 (transcribe_read_failed st path h v Hctx Hcrash Hdec)).
      cbn [List.filter is_inference_event]. rewrite List.filter_app.
      rewrite (filter_quiet _ (decode_events_quiet path)). reflexivity. }
  destruct (length v <? 1000)%nat eqn:Hlen.
  { apply Nat.ltb_lt in Hlen.
    rewrite (emitted_with_events _ _ _ _ (transcribe_too_short st path h v Hctx Hdec Hlen)).
    cbn [List.filter is_inference_event]. rewrite List.filter_app.
    rewrite (filter_quiet _ (decode_events_quiet path)). reflexivity. }
  apply Nat.ltb_ge in Hlen.
  destruct (whisper_full c transcribe_params v) as [rc c'] eqn:Hfull.
  pose proof (transcribe_inferred st path h v c c' rc Hctx Hdec Hlen Hwc Hfull) as Hrun.
  cbv zeta in Hrun. unfold emitted. rewrite Hrun.
  destruct (rc =? 0); [destruct (_ =? 0)|];
    cbn [with_events trace]; rewrite <- !app_assoc, drop_app_length;
    cbn [app List.filter is_inference_event]; rewrite !List.filter_app;
    rewrite (filter_quiet _ (decode_events_quiet path));
    cbn [app List.filter is_inference_event]; try reflexivity.
  rewrite (filter_quiet _ (segment_logs_quiet _ _)). reflexivity.
Qed.

End BridgeExtras.

(** ** More on the session *)

Section SessionExtras.
Context {whisper : WhisperLib} {dr_wav : DrWavLib} {host : Host}.

Lemma decode_events_no_lifecycle (path : string) : no_lifecycle (decode_events path).
Proof.
  unfold decode_events, no_lifecycle.
  destruct (is_wav_path path) eqn:Hext.
  2:{ rewrite (emitted_with_events _ _ _ _
                 (read_audio_file_unsupported path [] initial_state Hext)).
      repeat constructor. }
  destruct (drwav_init_file path) as [wav|] eqn:Hwav.
  - destruct (Z.eq_dec (channels wav) 1) as [Hch|Hch];
      [destruct (Z.eq_dec (sampleRate wav) 16000) as [Hrate|Hrate]|].
    + rewrite (emitted_with_events _ _ _ _
                 (read_audio_file_valid_wav path wav [] initial_state Hext Hwav Hch Hrate)).
      destruct (10 <? _)%nat; repeat constructor.
    + rewrite (emitted_with_events _ _ _ _
                 (read_audio_file_invalid_wav path wav [] initial_state Hext Hwav
                    (or_intror Hrate))).
      repeat constructor.
    + rewrite (emitted_with_events _ _ _ _
                 (read_audio_file_invalid_wav path wav [] initial_state Hext Hwav
                    (or_introl Hch))).
      repeat constructor.
  - destruct (ifstream_open path) as [s|] eqn:Hopen.
    + destruct (breaks_raw_reading s) eqn:Hs.
      * fold (decode_events path). rewrite decode_events_crash; [constructor|].
        apply decoder_crashes_iff. eauto.
      * destruct s as [bytes|]; [|discriminate Hs]. cbn [breaks_raw_reading] in Hs.
        rewrite <- Nat.negb_even in Hs. apply negb_false_iff in Hs.
        rewrite (emitted_with_events _ _ _ _
                   (read_audio_file_raw path bytes [] initial_state Hext Hwav Hopen Hs)).
        repeat constructor.
    + rewrite (emitted_with_events _ _ _ _
                 (read_audio_file_unopenable path [] initial_state Hext Hwav Hopen)).
      repeat constructor.
Qed.

Lemma segment_logs_no_lifecycle (f : Z -> string) (l : list Z) :
  no_lifecycle (map (fun j => LOGI (Segment j (f j))) l).
Proof. induction l; constructor; [reflexivity|assumption]. Qed.

(** X10: on a well-formed session a request does not return exactly when
    a context is loaded and the decoder faults on the file.  Whenever it
    returns, whatever its outcome, it has kept [ctx] and so readiness, the
    number of allocated contexts and the invariant; and in no case does it
    call [whisper_init_from_file] or [whisper_free]. *)
Theorem transcription_never_loads_or_unloads (st : State) (path : string) :
  session_ok st ->
  (nativeTranscribeAudio path st = Fault <-> request_crashes st path = true)
  /\ (request_crashes st path = false ->
      exists r st',
        nativeTranscribeAudio path st = Ok r st'
        /\ ctx st' = ctx st
        /\ is_ready st' = is_ready st
        /\ live_contexts st' = live_contexts st
        /\ session_ok st')
  /\ Forall (fun e => is_lifecycle_event e = false)
            (emitted (nativeTranscribeAudio path) st).
Proof.
  intros Hok. split; [now apply transcribe_fault_iff|]. split.
  { intros Hsafe.
    destruct (transcribe_total st path Hok Hsafe) as (r & st' & Hrun & Hctx' & Hdom & Hok').
    exists r, st'. split; [exact Hrun|]. split; [exact Hctx'|].
    assert (Hready : is_ready st' = is_ready st) by (unfold is_ready; now rewrite Hctx').
    split; [exact Hready|].
    split; [now rewrite (session_ok_live st' Hok'), (session_ok_live st Hok), Hready|].
    exact Hok'. }
  fold (no_lifecycle (emitted (nativeTranscribeAudio path) st)).
  destruct (ctx st) as [h|] eqn:Hctx.
  2:{ rewrite (emitted_with_events _ _ _ _ (transcribe_not_ready st path Hctx)).
      repeat constructor. }
  destruct (decoder_crashes path) eqn:Hcrash.
  { unfold emitted. rewrite (transcribe_crash st path h Hctx Hcrash). constructor. }
  destruct (session_ok_lookup st h Hok Hctx) as [c Hc].
  assert (Hwc : contexts st !! h = Some c) by (rewrite Hc; apply lookup_singleton_eq).
  destruct (decoded path) as [[|] v] eqn:Hdec.
  2:{ rewrite (emitted_with_events _ _ _ _
                 (transcribe_read_failed st path h v Hctx Hcrash Hdec)).
      constructor; [reflexivity|]. apply Forall_app.
      split; [apply decode_events_no_lifecycle|repeat constructor]. }
  destruct (Nat.lt_ge_cases (length v) 1000) as [Hlen|Hlen].
  { rewrite (emitted_with_events _ _ _ _ (transcribe_too_short st path h v Hctx Hdec Hlen)).
    constructor; [reflexivity|]. apply Forall_app.
    split; [apply decode_events_no_lifecycle|repeat constructor]. }
  destruct (whisper_full c transcribe_params v) as [rc c'] eqn:Hfull.
  pose proof (transcribe_inferred st path h v c c' rc Hctx Hdec Hlen Hwc Hfull) as Hrun.
  cbv zeta in Hrun. unfold emitted. rewrite Hrun.
  destruct (rc =? 0); [destruct (_ =? 0)|];
    cbn [with_events trace]; rewrite <- !app_assoc, drop_app_length;
    unfold no_lifecycle; cbn [app]; (constructor; [reflexivity|]);
    rewrite !Forall_app; repeat split;
    try apply decode_events_no_lifecycle;
    repeat (constructor; [reflexivity|]); try constructor.
  apply segment_logs_no_lifecycle.
Qed.

(** X11: in a state reached from the initial one by bridge calls, a
    further call does not return exactly when it is a transcription, a
    context is loaded and the decoder faults on the file.  When it returns,
    readiness afterwards is decided by that call alone if it is a load
    (ready exactly if [whisper_init_from_file] gave a context) or a release
    (not ready), a transcription leaves readiness as it was, and one context
    is allocated when the session is ready and none when it is not. *)
Theorem readiness_after_each_call
    (cs : list bridge_call) (c : bridge_call) (st : State) :
  run_calls cs initial_state = Some st ->
  (run_call c st = None <-> call_crashes c st = true)
  /\ forall st',
       run_call c st = Some st' ->
       is_ready st'
       = match c with
         | InitModel p => bool_decide (is_Some (whisper_init_from_file p))
         | TranscribeAudio _ => is_ready st
         | FreeModel => false
         end
       /\ live_contexts st' = (if is_ready st' then 1%nat else 0%nat).
Proof.
  intros Hst.
  pose proof (run_calls_session_ok cs initial_state st initial_session_ok Hst) as Hok.
  split; [now apply run_call_none_iff|].
  intros st' Hst'.
  pose proof (run_call_session_ok c st st' Hok Hst') as Hok'.
  split; [|now apply session_ok_live].
  destruct c as [p|p|]; cbn [run_call] in Hst'.
  - rewrite (nativeInitModel_run st p Hok) in Hst'.
    destruct (whisper_init_from_file p); injection Hst' as <-; reflexivity.
  - destruct (request_crashes st p) eqn:Hcrash.
    + rewrite (proj2 (transcribe_fault_iff st p Hok) Hcrash) in Hst'. discriminate.
    + destruct (transcribe_total st p Hok Hcrash) as (r & st1 & Hrun & Hctx' & _).
      rewrite Hrun in Hst'. injection Hst' as <-. unfold is_ready. now rewrite Hctx'.
  - destruct (ctx st) as [h|] eqn:Hctx.
    + rewrite (nativeFreeModel_loaded st h Hok Hctx) in Hst'. now injection Hst' as <-.
    + rewrite (nativeFreeModel_unloaded st Hctx) in Hst'. injection Hst' as <-.
      unfold is_ready. now rewrite Hctx.
Qed.

(** X12: a load that fails on a session that had a model loaded leaves no
    model behind: the old context has been released, none is allocated, and
    the next request returns "Error: Model not initialized". *)
Theorem failed_reload_leaves_no_model
    (st : State) (h : handle) (modelPath audioPath : string) :
  session_ok st ->
  ctx st = Some h ->
  whisper_init_from_file modelPath = None ->
  exists st1 st2,
    nativeInitModel modelPath st = Ok false st1
    /\ Call_whisper_free h ∈ emitted (nativeInitModel modelPath) st
    /\ live_contexts st1 = 0%nat
    /\ nativeTranscribeAudio audioPath st1 = Ok "Error: Model not initialized" st2.
Proof.
  intros Hok Hctx Hinit.
  pose proof (nativeInitModel_run st modelPath Hok) as Hrun. cbv zeta in Hrun.
  rewrite Hinit, Hctx in Hrun.
  eexists _, _. split; [exact Hrun|]. split.
  { unfold emitted. rewrite Hrun. cbn [trace]. rewrite drop_app_length. set_solver. }
  split; [apply map_size_empty|].
  now apply transcribe_not_ready.
Qed.

(** X13: releasing the model before loading another changes nothing about
    the load: with or without the release, the load returns the same value
    and leaves the same pointer and the same allocated context. *)
Theorem release_before_load_is_redundant (st : State) (modelPath : string) :
  session_ok st ->
  exists st0 b st1 st2,
    nativeFreeModel st = Ok tt st0
    /\ nativeInitModel modelPath st0 = Ok b st1
    /\ nativeInitModel modelPath st = Ok b st2
    /\ ctx st1 = ctx st2
    /\ contexts st1 = contexts st2.
Proof.
  intros Hok.
  assert (Hfree : exists st0, nativeFreeModel st = Ok tt st0 /\ session_ok st0).
  { destruct (ctx st) as [h|] eqn:Hctx.
    - rewrite (nativeFreeModel_loaded st h Hok Hctx). eexists. split; reflexivity.
    - rewrite (nativeFreeModel_unloaded st Hctx). now exists st. }
  destruct Hfree as (st0 & Hfree & Hok0). exists st0.
  rewrite (nativeInitModel_run st0 modelPath Hok0), (nativeInitModel_run st modelPath Hok).
  destruct (whisper_init_from_file modelPath);
    eexists _, _, _; (split; [exact Hfree|]); repeat split.
Qed.

(** X14: what a request does after a load depends on the model path and
    the audio path only, not on what the session did before: loading the
    same model into two sessions with different histories gives the same
    load result, and transcribing the same file then either returns in
    neither session or returns in both, with the same string and the same
    context afterwards. *)
Theorem reload_forgets_history
    (stA stB : State) (modelPath audioPath : string) :
  session_ok stA ->
  session_ok stB ->
  exists b stA1 stB1,
    nativeInitModel modelPath stA = Ok b stA1
    /\ nativeInitModel modelPath stB = Ok b stB1
    /\ match nativeTranscribeAudio audioPath stA1,
             nativeTranscribeAudio audioPath stB1 with
       | Ok rA stA2, Ok rB stB2 =>
           rA = rB /\ ctx stA2 = ctx stB2 /\ contexts stA2 = contexts stB2
       | Fault, Fault => True
       | _, _ => False
       end.
Proof.
  intros HokA HokB.
  rewrite (nativeInitModel_run stA modelPath HokA), (nativeInitModel_run stB modelPath HokB).
  destruct (whisper_init_from_file modelPath) as [c|].
  - set (h := fresh (dom (∅ : gmap handle whisper_context))).
    eexists _, _, _. split; [reflexivity|]. split; [reflexivity|].
    destruct (decoder_crashes audioPath) eqn:Hcrash.
    { repeat match goal with
             | |- context [nativeTranscribeAudio audioPath ?s] =>
                 rewrite (transcribe_crash s audioPath h eq_refl Hcrash)
             end.
      exact I. }
    match goal with
    | |- context [nativeTranscribeAudio audioPath ?s] =>
        destruct (transcribe_returns s audioPath h c eq_refl
                    (lookup_singleton_eq h c) Hcrash)
          as (tA & HrunA & HctxA & HcA);
        rewrite HrunA
    end.
    match goal with
    | |- context [nativeTranscribeAudio audioPath ?s] =>
        destruct (transcribe_returns s audioPath h c eq_refl
                    (lookup_singleton_eq h c) Hcrash)
          as (tB & HrunB & HctxB & HcB);
        rewrite HrunB
    end.
    split; [reflexivity|].
    split; [now rewrite HctxA, HctxB|].
    cbn [contexts] in HcA, HcB.
    destruct (decoded audioPath) as [[|] v]; [destruct (length v <? 1000)%nat|];
      now rewrite HcA, HcB.
  - eexists _, _, _. split; [reflexivity|]. split; [reflexivity|].
    rewrite !transcribe_not_ready by reflexivity. repeat split.
Qed.

End SessionExtras.

(* ================================================================== *)
(** * The further theorems at work on the mock collaborators *)

Module ExtraWitness.
Import Mock.

Lemma wav_extension_test_is_exact_suffix_test_witness :
  is_wav_path "clips/a.b/take.WAV" = false.
Proof.
  apply (proj2 (wav_extension_test_is_exact_suffix_test "clips/a.b/take.WAV")
           "clips/a.b/take" ".WAV"); [reflexivity|reflexivity|discriminate].
Defined.


Lemma even_sized_raw_file_decodes_little_endian_witness :
  exists st',
    read_audio_file "pair.wav" [] initial_state
    = Ok (true, [S754_finite true 8388608 (-23); S754_finite false 16776704 (-24)]) st'
    /\ raw_pcm_samples [x00; x80; xff; x7f] = [-32768; 32767].
Proof.
  destruct (even_sized_raw_file_decodes_little_endian "pair.wav" [x00; x80; xff; x7f]
              [] initial_state) as (p & st' & Hrun & _);
    [reflexivity|reflexivity|reflexivity|reflexivity|].
  exists st'. split; [|reflexivity].
  rewrite Hrun. revert Hrun. vm_compute. intros [= <- _]. reflexivity.
Defined.

Lemma raw_pcm_decoding_is_injective_witness :
  ifstream_open "raw1000.wav" = Some (Regular (repeat x10 2000))
  /\ Nat.even (length (repeat x10 2000)) = true
  /\ repeat x10 2000 = repeat x10 2000.
Proof.
  split; [reflexivity|]. split; [reflexivity|].
  apply (raw_pcm_decoding_is_injective "raw1000.wav" "raw1000.wav"); reflexivity.
Defined.


Lemma transcript_shape_witness :
  exists r st', nativeTranscribeAudio "raw1000.wav" (loaded "base.bin") = Ok r st'
                /\ ends_in " " r = true
                /\ String.length r = (5 + 5 + 2)%nat.
Proof.
  edestruct (transcript_shape (loaded "base.bin") "raw1000.wav")
    as (r & st' & Hrun & Hend & Hlen & _);
    [reflexivity|reflexivity|reflexivity|vm_compute; lia|reflexivity|vm_compute; reflexivity|].
  exists r, st'. split; [exact Hrun|]. split; [exact Hend|exact Hlen].
Defined.

Lemma inference_is_called_at_most_once_witness :
  length (List.filter is_inference_event
            (emitted (nativeTranscribeAudio "raw1000.wav") (loaded "base.bin"))) = 1%nat
  /\ length (List.filter is_inference_event
               (emitted (nativeTranscribeAudio "raw999.wav") (loaded "base.bin"))) = 0%nat.
Proof.
  assert (Hok : session_ok (loaded "base.bin")) by (vm_compute; eexists; reflexivity).
  split.
  - assert (Hw := proj1 (inference_is_called_at_most_once
                           (loaded "base.bin") "raw1000.wav" Hok)).
    rewrite Hw. vm_compute. reflexivity.
  - assert (Hw := proj1 (inference_is_called_at_most_once
                           (loaded "base.bin") "raw999.wav" Hok)).
    rewrite Hw. vm_compute. reflexivity.
Defined.

Lemma transcription_never_loads_or_unloads_witness :
  (exists r st',
     nativeTranscribeAudio "raw1000.wav" (loaded "failing.bin") = Ok r st'
     /\ is_ready st' = true /\ live_contexts st' = 1%nat)
  /\ nativeTranscribeAudio "one.wav" (loaded "failing.bin") = Fault.
Proof.
  assert (Hok : session_ok (loaded "failing.bin")) by (vm_compute; eexists; reflexivity).
  split.
  - destruct (transcription_never_loads_or_unloads (loaded "failing.bin") "raw1000.wav" Hok)
      as (_ & Hret & _).
    destruct Hret as (r & st' & Hrun & _ & Hready & Hlive & _); [reflexivity|].
    exists r, st'. split; [exact Hrun|]. split; [exact Hready|exact Hlive].
  - apply (proj1 (transcription_never_loads_or_unloads (loaded "failing.bin") "one.wav" Hok)).
    reflexivity.
Defined.

Lemma readiness_after_each_call_witness :
  run_call (TranscribeAudio "one.wav") (loaded "base.bin") = None
  /\ run_call (TranscribeAudio "one.wav") initial_state <> None.
Proof.
  split.
  - apply (proj1 (readiness_after_each_call [InitModel "base.bin"]
                    (TranscribeAudio "one.wav") (loaded "base.bin") eq_refl)).
    reflexivity.
  - intros Hnone.
    apply (proj1 (readiness_after_each_call [] (TranscribeAudio "one.wav")
                    initial_state eq_refl)) in Hnone.
    discriminate Hnone.
Defined.

Lemma failed_reload_leaves_no_model_witness :
  exists st1 st2,
    nativeInitModel "missing.bin" (loaded "base.bin") = Ok false st1
    /\ nativeTranscribeAudio "raw1000.wav" st1 = Ok "Error: Model not initialized" st2.
Proof.
  destruct (failed_reload_leaves_no_model (loaded "base.bin") 1%positive
              "missing.bin" "raw1000.wav")
    as (st1 & st2 & Hload & _ & _ & Hrun);
    [vm_compute; eexists; reflexivity|reflexivity|reflexivity|].
  exists st1, st2. split; [exact Hload|exact Hrun].
Defined.

Lemma release_before_load_is_redundant_witness :
  exists st0 b st1 st2,
    nativeFreeModel (loaded "base.bin") = Ok tt st0
    /\ nativeInitModel "small.bin" st0 = Ok b st1
    /\ nativeInitModel "small.bin" (loaded "base.bin") = Ok b st2
    /\ contexts st1 = contexts st2.
Proof.
  destruct (release_before_load_is_redundant (loaded "base.bin") "small.bin")
    as (st0 & b & st1 & st2 & H0 & H1 & H2 & _ & Hsame);
    [vm_compute; eexists; reflexivity|].
  exists st0, b, st1, st2. repeat split; assumption.
Defined.

Lemma reload_forgets_history_witness :
  exists stA stB,
    nativeInitModel "base.bin" initial_state = Ok true stA
    /\ nativeInitModel "base.bin" (loaded "failing.bin") = Ok true stB
    /\ (exists tA, nativeTranscribeAudio "raw1000.wav" stA = Ok "Hello world " tA)
    /\ (exists tB, nativeTranscribeAudio "raw1000.wav" stB = Ok "Hello world " tB).
Proof.
  destruct (reload_forgets_history initial_state (loaded "failing.bin")
              "base.bin" "raw1000.wav")
    as (b & stA & stB & HA & HB & Hsame);
    [reflexivity|vm_compute; eexists; reflexivity|].
  assert (Hb : b = true).
  { destruct b; [reflexivity|]. exfalso. vm_compute in HA. discriminate HA. }
  rewrite Hb in HA, HB. exists stA, stB.
  split; [exact HA|]. split; [exact HB|].
  assert (HrunA : exists tA, nativeTranscribeAudio "raw1000.wav" stA
                             = Ok "Hello world " tA).
  { vm_compute in HA. injection HA as <-. eexists. vm_compute. reflexivity. }
  destruct HrunA as [tA HrunA]. rewrite HrunA in Hsame.
  split; [now exists tA|].
  destruct (nativeTranscribeAudio "raw1000.wav" stB) as [rB tB|]; [|contradiction].
  destruct Hsame as [<- _]. now exists tB.
Defined.

End ExtraWitness.

Module TruncatedWitness.
Import MockTruncated.

Lemma valid_wav_yields_declared_frame_count_witness :
  exists pcmf32 st',
    read_audio_file "cut.wav" [] initial_state = Ok (true, pcmf32) st'
    /\ length pcmf32 = 1500%nat
    /\ pcmf32 = replicate 600 (F32.of_int 1) ++ replicate 900 F32.zero.
Proof.
  destruct (valid_wav_yields_declared_frame_count "cut.wav"
              ({| declared := 1500; frames := repeat (F32.of_int 1) 600 |} : @drwav dr_wav)
              initial_state)
    as (p & st' & Hrun & Hlen & Hp & _);
    [reflexivity|reflexivity|reflexivity|reflexivity|].
  exists p, st'. split; [exact Hrun|]. split; [exact Hlen|exact Hp].
Defined.

Lemma wav_too_short_exactly_under_1000_declared_frames_witness :
  exists r st',
    nativeTranscribeAudio "cut.wav" (Mock.loaded "base.bin") = Ok r st'
    /\ r <> "Error: Audio file too short".
Proof.
  destruct (wav_too_short_exactly_under_1000_declared_frames
              (Mock.loaded "base.bin") "cut.wav" 1%positive
              ({| declared := 1500; frames := repeat (F32.of_int 1) 600 |} : @drwav dr_wav))
    as (r & st' & Hrun & Hiff);
    [vm_compute; eexists; reflexivity|reflexivity|reflexivity|reflexivity
    |reflexivity|reflexivity|].
  exists r, st'. split; [exact Hrun|]. intros Hr. apply Hiff in Hr.
  vm_compute in Hr. discriminate Hr.
Defined.

End TruncatedWitness.
